(** * FCL: collision objects and the sphere narrow phase

    A shallow embedding of [include/fcl/collision_object.h] (the classes
    [CollisionGeometry], [CollisionObject] and [ContinuousCollisionObject]),
    of [SimpleHashTable] from [fcl/hash.h], and of the parts of the narrow
    phase that [test/test_fcl_geometric_shapes.cpp] exercises on spheres.

    Layout:
    - scalars ([FCL_REAL]) as a class of operations, so that the header code
      reads the same over any arithmetic; instances for [Z] (evaluation) and
      [R] (geometry);
    - the Eigen value types the header uses: [Vector3d], [Matrix3d],
      [Quaternion3d], [Transform3d];
    - [AABB] and [translate];
    - the header itself, with the heap of shared geometries made explicit;
    - the sphere-sphere routines of the narrow phase, over the reals;
    - the contact bookkeeping of the tests and the two sphere tests;
    - what the code is expected to compute, and sample data;
    - occupancy, cost density and the constructors of the header, continuous
      collision objects, and the hash table;
    - the theorems. *)

From Stdlib Require Import Reals Lra Psatz ZArith NArith Lia List Bool.
From Stdlib Require String Permutation Sorted.
Import String.StringSyntax.
Delimit Scope string_scope with string.
Import ListNotations.

Set Implicit Arguments.

(** ** Scalars *)

(** [FCL_REAL] is a typedef that another header of the library declares;
    [collision_object.h] only adds, subtracts, multiplies and negates such
    numbers. *)
Class Scalar (F : Type) : Type := {
  s_zero : F;
  s_one : F;
  s_add : F -> F -> F;
  s_sub : F -> F -> F;
  s_mul : F -> F -> F;
  s_opp : F -> F
}.

Declare Scope fcl_scope.
Delimit Scope fcl_scope with fcl.
Notation "x + y" := (s_add x y) : fcl_scope.
Notation "x - y" := (s_sub x y) : fcl_scope.
Notation "x * y" := (s_mul x y) : fcl_scope.
Notation "- x" := (s_opp x) : fcl_scope.

#[export] Instance Z_Scalar : Scalar Z :=
  {| s_zero := 0%Z; s_one := 1%Z;
     s_add := Z.add; s_sub := Z.sub; s_mul := Z.mul; s_opp := Z.opp |}.

#[export] Instance R_Scalar : Scalar R :=
  {| s_zero := 0%R; s_one := 1%R;
     s_add := Rplus; s_sub := Rminus; s_mul := Rmult; s_opp := Ropp |}.

(** ** Eigen value types *)

(** Indices of a 3-vector, and of the rows and columns of a 3x3 matrix. *)
Inductive Index3 : Type := I0 | I1 | I2.

Definition Index3_eqb (i j : Index3) : bool :=
  match i, j with
  | I0, I0 | I1, I1 | I2, I2 => true
  | _, _ => false
  end.

Section Eigen.
Context {F : Type} {SF : Scalar F}.
Local Open Scope fcl_scope.

Record Vector3d : Type := mkVector3d { vx : F; vy : F; vz : F }.

(** [v[i]] *)
Definition vcoeff (v : Vector3d) (i : Index3) : F :=
  match i with I0 => vx v | I1 => vy v | I2 => vz v end.

(** A matrix is stored by rows. *)
Record Matrix3d : Type := mkMatrix3d { row0 : Vector3d; row1 : Vector3d; row2 : Vector3d }.

Definition mrow (m : Matrix3d) (i : Index3) : Vector3d :=
  match i with I0 => row0 m | I1 => row1 m | I2 => row2 m end.

(** [m(i, j)] *)
Definition mcoeff (m : Matrix3d) (i j : Index3) : F := vcoeff (mrow m i) j.

(** The comma initializer [m << a, b, c, d, e, f, g, h, i] fills a matrix
    row by row. *)
Definition comma_init (a b c d e f g h i : F) : Matrix3d :=
  mkMatrix3d (mkVector3d a b c) (mkVector3d d e f) (mkVector3d g h i).

Definition Vector3d_Zero : Vector3d := mkVector3d s_zero s_zero s_zero.

Definition Vector3d_Constant (c : F) : Vector3d := mkVector3d c c c.

Definition Matrix3d_Zero : Matrix3d :=
  mkMatrix3d Vector3d_Zero Vector3d_Zero Vector3d_Zero.

Definition Matrix3d_Identity : Matrix3d :=
  mkMatrix3d (mkVector3d s_one s_zero s_zero)
             (mkVector3d s_zero s_one s_zero)
             (mkVector3d s_zero s_zero s_one).

Definition vadd (a b : Vector3d) : Vector3d :=
  mkVector3d (vx a + vx b) (vy a + vy b) (vz a + vz b).

Definition vsub (a b : Vector3d) : Vector3d :=
  mkVector3d (vx a - vx b) (vy a - vy b) (vz a - vz b).

Definition vscale (a : Vector3d) (k : F) : Vector3d :=
  mkVector3d (vx a * k) (vy a * k) (vz a * k).

Definition vopp (a : Vector3d) : Vector3d :=
  mkVector3d (- vx a) (- vy a) (- vz a).

Definition vdot (a b : Vector3d) : F :=
  vx a * vx b + vy a * vy b + vz a * vz b.

(** Matrix times vector: each entry is a row times the vector. *)
Definition mvmul (m : Matrix3d) (v : Vector3d) : Vector3d :=
  mkVector3d (vdot (row0 m) v) (vdot (row1 m) v) (vdot (row2 m) v).

Definition mcol (m : Matrix3d) (j : Index3) : Vector3d :=
  mkVector3d (mcoeff m I0 j) (mcoeff m I1 j) (mcoeff m I2 j).

Definition mtranspose (m : Matrix3d) : Matrix3d :=
  mkMatrix3d (mcol m I0) (mcol m I1) (mcol m I2).

Definition mmul (a b : Matrix3d) : Matrix3d :=
  mkMatrix3d
    (mkVector3d (vdot (row0 a) (mcol b I0)) (vdot (row0 a) (mcol b I1)) (vdot (row0 a) (mcol b I2)))
    (mkVector3d (vdot (row1 a) (mcol b I0)) (vdot (row1 a) (mcol b I1)) (vdot (row1 a) (mcol b I2)))
    (mkVector3d (vdot (row2 a) (mcol b I0)) (vdot (row2 a) (mcol b I1)) (vdot (row2 a) (mcol b I2))).

Record Quaternion3d : Type := mkQuaternion3d { qw : F; qx : F; qy : F; qz : F }.

(** [Transform3d] is an isometry: a linear part and a translation, applied
    as [x |-> linear * x + translation]. *)
Record Transform3d : Type := mkTransform3d { linear : Matrix3d; translation : Vector3d }.

Definition Transform3d_Identity : Transform3d :=
  mkTransform3d Matrix3d_Identity Vector3d_Zero.

(** [t * v] *)
Definition transform (t : Transform3d) (v : Vector3d) : Vector3d :=
  vadd (mvmul (linear t) v) (translation t).

(** [t1 * t2] *)
Definition compose (t1 t2 : Transform3d) : Transform3d :=
  mkTransform3d (mmul (linear t1) (linear t2)) (transform t1 (translation t2)).

(** [Transform3d(Eigen::Translation3d(v))] *)
Definition Translation3d (v : Vector3d) : Transform3d :=
  mkTransform3d Matrix3d_Identity v.

(** [t.linear() = R] and [t.translation() = T] *)
Definition set_linear (t : Transform3d) (R : Matrix3d) : Transform3d :=
  mkTransform3d R (translation t).

Definition set_translation (t : Transform3d) (T : Vector3d) : Transform3d :=
  mkTransform3d (linear t) T.
End Eigen.

Arguments Vector3d F : clear implicits.
Arguments Matrix3d F : clear implicits.
Arguments Quaternion3d F : clear implicits.
Arguments Transform3d F : clear implicits.

(** The predicates and conversions of Eigen that the header calls and that
    are not arithmetic on the entries: they are taken as they come. *)
Class EigenOps (F : Type) : Type := {
  (** [m.isIdentity()] *)
  isIdentity : Matrix3d F -> bool;
  (** [v.isZero()] *)
  isZero : Vector3d F -> bool;
  (** [q.toRotationMatrix()] *)
  toRotationMatrix : Quaternion3d F -> Matrix3d F
}.

(** Over the integers nothing is rounded and Eigen's comparisons are exact;
    this is the instance the examples run on. *)
Definition Z_vec_eqb (a b : Vector3d Z) : bool :=
  (vx a =? vx b)%Z && (vy a =? vy b)%Z && (vz a =? vz b)%Z.

Definition Z_mat_eqb (a b : Matrix3d Z) : bool :=
  Z_vec_eqb (row0 a) (row0 b) && Z_vec_eqb (row1 a) (row1 b) && Z_vec_eqb (row2 a) (row2 b).

Definition Z_toRotationMatrix (q : Quaternion3d Z) : Matrix3d Z :=
  let tx := (2 * qx q)%Z in
  let ty := (2 * qy q)%Z in
  let tz := (2 * qz q)%Z in
  let twx := (tx * qw q)%Z in
  let twy := (ty * qw q)%Z in
  let twz := (tz * qw q)%Z in
  let txx := (tx * qx q)%Z in
  let txy := (ty * qx q)%Z in
  let txz := (tz * qx q)%Z in
  let tyy := (ty * qy q)%Z in
  let tyz := (tz * qy q)%Z in
  let tzz := (tz * qz q)%Z in
  comma_init
    (1 - (tyy + tzz))%Z (txy - twz)%Z (txz + twy)%Z
    (txy + twz)%Z (1 - (txx + tzz))%Z (tyz - twx)%Z
    (txz - twy)%Z (tyz + twx)%Z (1 - (txx + tyy))%Z.

#[export] Instance Z_EigenOps : EigenOps Z :=
  {| isIdentity := fun m => Z_mat_eqb m Matrix3d_Identity;
     isZero := fun v => Z_vec_eqb v Vector3d_Zero;
     toRotationMatrix := Z_toRotationMatrix |}.

(** ** fcl/BV/AABB.h *)

Section AABB.
Context {F : Type} {SF : Scalar F}.

(** Modelled from the spec: the class [AABB] and the free function
    [translate] of fcl/BV/AABB.h, a header that [collision_object.h] includes
    and whose source is not embedded here. A box is its two corners;
    translating a box moves both corners by the same vector
    ("translation-only: translate the local AABB"). *)
Record AABB : Type := mkAABB { min_ : Vector3d F; max_ : Vector3d F }.

Definition translate (aabb : AABB) (t : Vector3d F) : AABB :=
  mkAABB (vadd (min_ aabb) t) (vadd (max_ aabb) t).
End AABB.

Arguments AABB F : clear implicits.

(** ** fcl/collision_object.h *)

(** object type: BVH (mesh, points), basic geometry, octree *)
Inductive OBJECT_TYPE : Type := OT_UNKNOWN | OT_BVH | OT_GEOM | OT_OCTREE | OT_COUNT.

(** traversal node type: bounding volume, basic shape, and octree *)
Inductive NODE_TYPE : Type :=
| BV_UNKNOWN | BV_AABB | BV_OBB | BV_RSS | BV_kIOS | BV_OBBRSS
| BV_KDOP16 | BV_KDOP18 | BV_KDOP24
| GEOM_BOX | GEOM_SPHERE | GEOM_ELLIPSOID | GEOM_CAPSULE | GEOM_CONE
| GEOM_CYLINDER | GEOM_CONVEX | GEOM_PLANE | GEOM_HALFSPACE | GEOM_TRIANGLE
| GEOM_OCTREE | NODE_COUNT.

(** [void*]: an address, [0] for the null pointer. *)
Definition void_ptr : Type := nat.

(** Where a geometry lives; a [shared_ptr] is such a place or null. *)
Definition loc : Type := nat.
Definition shared_ptr : Type := option loc.

(** The geometry for the object for collision or distance computation. *)
Module CollisionGeometry.
Section Defs.
Context {F : Type} {SF : Scalar F}.
Local Open Scope fcl_scope.

(** The data members, followed by what the virtual [const] member
    functions return for the dynamic type of the geometry. *)
Record geometry : Type := mk {
  (** AABB center in local coordinate *)
  aabb_center : Vector3d F;
  (** AABB radius *)
  aabb_radius : F;
  (** AABB in local coordinate, used for tight AABB when only translation transform *)
  aabb_local : AABB F;
  (** pointer to user defined data specific to this object *)
  user_data : void_ptr;
  (** collision cost for unit volume *)
  cost_density : F;
  (** threshold for occupied ( >= is occupied) *)
  threshold_occupied : F;
  (** threshold for free (<= is free) *)
  threshold_free : F;
  getObjectType : OBJECT_TYPE;
  getNodeType : NODE_TYPE;
  (** compute center of mass *)
  computeCOM : Vector3d F;
  (** compute the inertia matrix, related to the origin *)
  computeMomentofInertia : Matrix3d F;
  (** compute the volume *)
  computeVolume : F
}.

(** What the base class answers when a subclass overrides nothing. *)
Definition base_getObjectType : OBJECT_TYPE := OT_UNKNOWN.
Definition base_getNodeType : NODE_TYPE := BV_UNKNOWN.
Definition base_computeCOM : Vector3d F := Vector3d_Zero.
Definition base_computeMomentofInertia : Matrix3d F := Matrix3d_Zero.
Definition base_computeVolume : F := s_zero.

Definition getUserData (g : geometry) : void_ptr := user_data g.

Definition setUserData (data : void_ptr) (g : geometry) : geometry :=
  mk (aabb_center g) (aabb_radius g) (aabb_local g) data
     (cost_density g) (threshold_occupied g) (threshold_free g)
     (getObjectType g) (getNodeType g)
     (computeCOM g) (computeMomentofInertia g) (computeVolume g).

(** compute the inertia matrix, related to the com (the body the base
    class gives this virtual member function) *)
Definition computeMomentofInertiaRelatedToCOM (g : geometry) : Matrix3d F :=
  let C := computeMomentofInertia g in
  let com := computeCOM g in
  let V := computeVolume g in
  comma_init
    (mcoeff C I0 I0 - V * (vcoeff com I1 * vcoeff com I1 + vcoeff com I2 * vcoeff com I2))
    (mcoeff C I0 I1 + V * vcoeff com I0 * vcoeff com I1)
    (mcoeff C I0 I2 + V * vcoeff com I0 * vcoeff com I2)
    (mcoeff C I1 I0 + V * vcoeff com I1 * vcoeff com I0)
    (mcoeff C I1 I1 - V * (vcoeff com I0 * vcoeff com I0 + vcoeff com I2 * vcoeff com I2))
    (mcoeff C I1 I2 + V * vcoeff com I1 * vcoeff com I2)
    (mcoeff C I2 I0 + V * vcoeff com I2 * vcoeff com I0)
    (mcoeff C I2 I1 + V * vcoeff com I2 * vcoeff com I1)
    (mcoeff C I2 I2 - V * (vcoeff com I0 * vcoeff com I0 + vcoeff com I1 * vcoeff com I1)).
End Defs.
Arguments geometry F : clear implicits.
End CollisionGeometry.

(** The geometries that objects point to. *)
Definition Heap (F : Type) : Type := loc -> option (CollisionGeometry.geometry F).

Definition deref {F : Type} (h : Heap F) (p : shared_ptr) : option (CollisionGeometry.geometry F) :=
  match p with
  | Some l => h l
  | None => None
  end.

(** The object for collision or distance computation, contains the geometry
    and the transform information. *)
Module CollisionObject.
Section Defs.
Context {F : Type} {SF : Scalar F} {EF : EigenOps F}.

Record object : Type := mk {
  cgeom : shared_ptr;
  cgeom_const : shared_ptr;
  t : Transform3d F;
  (** AABB in global coordinate *)
  aabb : AABB F;
  (** pointer to user defined data specific to this object *)
  user_data : void_ptr
}.

Definition with_t (o : object) (tf' : Transform3d F) : object :=
  mk (cgeom o) (cgeom_const o) tf' (aabb o) (user_data o).

Definition with_aabb (o : object) (aabb' : AABB F) : object :=
  mk (cgeom o) (cgeom_const o) (t o) aabb' (user_data o).

(** get the type of the object; dereferencing a null [cgeom] has no
    meaning, which [None] stands for here and below *)
Definition getObjectType (h : Heap F) (o : object) : option OBJECT_TYPE :=
  option_map CollisionGeometry.getObjectType (deref h (cgeom o)).

(** get the node type *)
Definition getNodeType (h : Heap F) (o : object) : option NODE_TYPE :=
  option_map CollisionGeometry.getNodeType (deref h (cgeom o)).

(** get the AABB in world space *)
Definition getAABB (o : object) : AABB F := aabb o.

(** compute the AABB in world space *)
Definition computeAABB (h : Heap F) (o : object) : option object :=
  match deref h (cgeom o) with
  | None => None
  | Some g =>
      if isIdentity (linear (t o)) then
        Some (with_aabb o (translate (CollisionGeometry.aabb_local g) (translation (t o))))
      else
        let center := transform (t o) (CollisionGeometry.aabb_center g) in
        let delta := Vector3d_Constant (CollisionGeometry.aabb_radius g) in
        Some (with_aabb o (mkAABB (vsub center delta) (vadd center delta)))
  end.

(** get user data in object *)
Definition getUserData (o : object) : void_ptr := user_data o.

(** set user data in object *)
Definition setUserData (data : void_ptr) (o : object) : object :=
  mk (cgeom o) (cgeom_const o) (t o) (aabb o) data.

(** get translation of the object *)
Definition getTranslation (o : object) : Vector3d F := translation (t o).

(** get matrix rotation of the object *)
Definition getRotation (o : object) : Matrix3d F := linear (t o).

(** get object's transform *)
Definition getTransform (o : object) : Transform3d F := t o.

(** set object's rotation matrix *)
Definition setRotation (R : Matrix3d F) (o : object) : object :=
  with_t o (set_linear (t o) R).

(** set object's translation *)
Definition setTranslation (T : Vector3d F) (o : object) : object :=
  with_t o (set_translation (t o) T).

(** set object's quatenrion rotation *)
Definition setQuatRotation (q : Quaternion3d F) (o : object) : object :=
  with_t o (set_linear (t o) (toRotationMatrix q)).

(** set object's transform: the three overloads *)
Definition setTransform_RT (R : Matrix3d F) (T : Vector3d F) (o : object) : object :=
  setTranslation T (setRotation R o).

Definition setTransform_qT (q : Quaternion3d F) (T : Vector3d F) (o : object) : object :=
  setTranslation T (setQuatRotation q o).

Definition setTransform (tf' : Transform3d F) (o : object) : object := with_t o tf'.

(** whether the object is in local coordinate *)
Definition isIdentityTransform (o : object) : bool :=
  isIdentity (linear (t o)) && isZero (translation (t o)).

(** set the object in local coordinate *)
Definition setIdentityTransform (o : object) : object := with_t o Transform3d_Identity.

(** get geometry from the object instance *)
Definition collisionGeometry (o : object) : shared_ptr := cgeom_const o.

(** The calls that change where the object is. *)
Inductive TransformCall : Type :=
| CallSetRotation (R : Matrix3d F)
| CallSetTranslation (T : Vector3d F)
| CallSetQuatRotation (q : Quaternion3d F)
| CallSetTransform_RT (R : Matrix3d F) (T : Vector3d F)
| CallSetTransform_qT (q : Quaternion3d F) (T : Vector3d F)
| CallSetTransform (tf' : Transform3d F).

Definition call (o : object) (c : TransformCall) : object :=
  match c with
  | CallSetRotation R => setRotation R o
  | CallSetTranslation T => setTranslation T o
  | CallSetQuatRotation q => setQuatRotation q o
  | CallSetTransform_RT R T => setTransform_RT R T o
  | CallSetTransform_qT q T => setTransform_qT q T o
  | CallSetTransform tf' => setTransform tf' o
  end.

(** A run of such calls, first to last. *)
Definition calls (o : object) (cs : list TransformCall) : object := fold_left call cs o.
End Defs.
Arguments object F : clear implicits.
Arguments TransformCall F : clear implicits.
End CollisionObject.

(** ** Real scalars: comparisons, norms *)

(** The first [n] elements of a list, [n] a [size_t]. *)
Fixpoint take {A : Type} (n : N) (l : list A) : list A :=
  match l with
  | [] => []
  | x :: l' => if (n =? 0)%N then [] else x :: take (N.pred n) l'
  end.

(** [std::numeric_limits<size_t>::max()] *)
Definition size_t_max : N := 18446744073709551615%N.

Definition Rleb (x y : R) : bool := if Rle_dec x y then true else false.
Definition Rltb (x y : R) : bool := if Rlt_dec x y then true else false.

(** [v.squaredNorm()] and [v.norm()] *)
Definition squaredNorm (v : Vector3d R) : R := vdot v v.
Definition norm (v : Vector3d R) : R := sqrt (squaredNorm v).

(** [v / k] *)
Definition vdiv (v : Vector3d R) (k : R) : Vector3d R :=
  mkVector3d (vx v / k)%R (vy v / k)%R (vz v / k)%R.

(** [a.isApprox(b, prec)] on vectors, as Eigen documents it:
    [|a - b| <= prec * min(|a|, |b|)], compared on the squares. *)
Definition isApprox (a b : Vector3d R) (prec : R) : bool :=
  Rleb (squaredNorm (vsub a b))
       (prec * prec * Rmin (squaredNorm a) (squaredNorm b))%R.

(** A rigid transform has an orthogonal linear part. *)
Definition orthogonal (m : Matrix3d R) : Prop :=
  mmul (mtranspose m) m = Matrix3d_Identity.

(** ** The narrow phase on spheres *)

Module Narrowphase.
Local Open Scope R_scope.

(** Modelled from the spec: the shape variant Sphere(radius) of section 3
    (fcl/shape, whose source is not embedded here); the sphere sits at the
    origin of its local frame. *)
Record Sphere : Type := mkSphere { radius : R }.

(** Modelled from the spec: the contact point of section 3 (declared in
    fcl/collision_data.h, whose source is not embedded here), with the
    members the tests read and write: [normal], [pos] and
    [penetration_depth]. *)
Record ContactPoint : Type := mkContactPoint {
  normal : Vector3d R;
  pos : Vector3d R;
  penetration_depth : R
}.

(** The world center of a sphere placed by [tf]. *)
Definition center (tf : Transform3d R) : Vector3d R := translation tf.

(** Modelled from the spec: the closed-form sphere-sphere routine of the
    narrow phase (fcl/narrowphase, whose source is not embedded here),
    section 4.E:
    "Collision iff |c1 - c2| <= r1 + r2. Contact normal is (c2 - c1)/|.|;
    when the centers coincide the normal is the zero vector by convention.
    Contact position is the midpoint weighted by radii. Depth is
    (r1 + r2) - |c1 - c2|, clamped at 0 on the boundary." The weighted
    midpoint is [c1 + (c2 - c1) * r1 / (r1 + r2)], the reading that
    scenario 2 of the spec and the expectations of
    [shapeIntersection_spheresphere] fix. [None] is "no collision". *)
Definition sphereSphereIntersect
    (s1 : Sphere) (tf1 : Transform3d R) (s2 : Sphere) (tf2 : Transform3d R)
  : option ContactPoint :=
  let diff := vsub (center tf2) (center tf1) in
  let len := norm diff in
  if Rleb len (radius s1 + radius s2) then
    let n := if Rltb 0 len then vdiv diff len else Vector3d_Zero in
    let point := vadd (center tf1) (vscale diff (radius s1 / (radius s1 + radius s2))) in
    let depth := Rmax 0 (radius s1 + radius s2 - len) in
    Some (mkContactPoint n point depth)
  else None.

(** Modelled from the spec: [solver.shapeIntersect(s1, tf1, s2, tf2,
    contacts)] of either solver on two spheres (fcl/narrowphase, whose source
    is not embedded here), which section 4.F sends to the closed-form
    routine: the boolean, and the contact appended to [*contacts] when the
    pointer is not null. *)
Definition shapeIntersect
    (s1 : Sphere) (tf1 : Transform3d R) (s2 : Sphere) (tf2 : Transform3d R)
    (contacts : option (list ContactPoint))
  : bool * option (list ContactPoint) :=
  match sphereSphereIntersect s1 tf1 s2 tf2 with
  | Some c => (true, option_map (fun cs => cs ++ [c]) contacts)
  | None => (false, contacts)
  end.

(** The two solver backends, as the tests name them. *)
Inductive GJKSolverType : Type := GST_LIBCCD | GST_INDEP.

(** Modelled from the spec: the collision request of section 3 (declared in
    fcl/collision_data.h, whose source is not embedded here), with the member
    names the tests use. *)
Record CollisionRequest : Type := mkCollisionRequest {
  num_max_contacts : N;
  enable_contact : bool;
  gjk_solver_type : GJKSolverType;
  enable_cached_gjk_guess : bool;
  cached_gjk_guess : Vector3d R
}.

(** Modelled from the spec: the collision result of section 3, "a bounded
    sequence of contact points plus a boolean is_collision, plus (when
    requested) the updated cached warm-start direction". *)
Record CollisionResult : Type := mkCollisionResult {
  is_collision : bool;
  contacts : list ContactPoint;
  result_cached_gjk_guess : Vector3d R
}.

(** Modelled from the spec: [collide] on a pair of spheres, sections 4.F and
    4.H. The dispatcher selects the closed-form routine for the pair; "if
    enable_contact is false, only the boolean is set and no contacts are
    produced. If true, contacts are appended up to max_contacts; excess
    contacts are silently dropped." The closed-form routine does not look at
    the warm-start direction, which is handed back as it came. *)
Definition collide
    (s1 : Sphere) (tf1 : Transform3d R) (s2 : Sphere) (tf2 : Transform3d R)
    (request : CollisionRequest) : CollisionResult :=
  match sphereSphereIntersect s1 tf1 s2 tf2 with
  | Some c =>
      mkCollisionResult true
        (if enable_contact request then take (num_max_contacts request) [c] else [])
        (cached_gjk_guess request)
  | None => mkCollisionResult false [] (cached_gjk_guess request)
  end.

(** Modelled from the spec: the distance result of section 3, as the tests
    receive it from [solver.shapeDistance]: the boolean the call returns, the
    scalar written to [*dist], and the closest points when it found them. *)
Record DistanceResult : Type := mkDistanceResult {
  success : bool;
  dist : R;
  closest_points : option (Vector3d R * Vector3d R)
}.

(** Modelled from the spec: the distance query on a pair of spheres
    (fcl/narrowphase, whose source is not embedded here). Section 6: "Returns
    non-negative separation on success; a negative scalar means the shapes
    overlap and the caller should switch to collide"; section 3: "witness
    points on each shape expressed in world coordinates"; the separation of
    two spheres is [|t1 - t2| - r1 - r2] (section 8). Overlap is the
    collision condition of section 4.E. The assertions of
    [shapeDistance_spheresphere] pin the overlapping case: the call returns
    false and leaves a negative number, here [-1], in [*dist]. *)
Definition shapeDistance
    (s1 : Sphere) (tf1 : Transform3d R) (s2 : Sphere) (tf2 : Transform3d R)
  : DistanceResult :=
  let diff := vsub (center tf1) (center tf2) in
  let len := norm diff in
  if Rltb (radius s1 + radius s2) len then
    mkDistanceResult true (len - (radius s1 + radius s2))
      (Some (vsub (center tf1) (vscale diff (radius s1 / len)),
             vadd (center tf2) (vscale diff (radius s2 / len))))
  else mkDistanceResult false (-1) None.
End Narrowphase.

(** ** test/test_fcl_geometric_shapes.cpp *)

Module GeometricShapesTest.
Import Narrowphase.
Local Open Scope R_scope.

(** [checkContactPoints]: the three comparisons an expected contact and an
    actual one go through, each behind its flag. *)
Definition checkContactPoints
    (expected actual : ContactPoint)
    (check_position check_depth check_normal check_opposite_normal : bool)
    (tol : R) : bool :=
  if check_position && negb (isApprox (pos actual) (pos expected) tol) then false
  else if check_depth &&
          negb (Rltb (Rabs (penetration_depth actual - penetration_depth expected)) tol)
  then false
  else if check_normal then
    let normal_equal := isApprox (normal actual) (normal expected) tol in
    if negb normal_equal && check_opposite_normal
    then isApprox (normal actual) (vopp (normal expected)) tol
    else normal_equal
  else true.

(** The inner loop of [inspectContactPoints]: the first actual contact that
    is not taken yet ([taken] is [index_to_expected_contacts[j] != -1]) and
    that [check] accepts is marked taken. [None] when there is none. *)
Fixpoint find_actual
    (check : ContactPoint -> bool) (actual : list ContactPoint) (taken : list bool)
  : option (list bool) :=
  match actual, taken with
  | a :: actual', tk :: taken' =>
      if tk then option_map (cons tk) (find_actual check actual' taken')
      else if check a then Some (true :: taken')
      else option_map (cons false) (find_actual check actual' taken')
  | _, _ => None
  end.

(** The outer loop: every expected contact looks for an actual one;
    [foundAll] turns false when one finds none. *)
Fixpoint match_expected
    (check : ContactPoint -> ContactPoint -> bool)
    (expected actual : list ContactPoint) (taken : list bool) (foundAll : bool) : bool :=
  match expected with
  | [] => foundAll
  | e :: expected' =>
      match find_actual (check e) actual taken with
      | Some taken' => match_expected check expected' actual taken' foundAll
      | None => match_expected check expected' actual taken false
      end
  end.

(** [inspectContactPoints], without the report it prints. *)
Definition inspectContactPoints
    (expected_contacts actual_contacts : list ContactPoint)
    (check_position check_depth check_normal check_opposite_normal : bool)
    (tol : R) : bool :=
  if negb (length actual_contacts =? length expected_contacts)%nat then false
  else
    let numContacts := length actual_contacts in
    match_expected
      (fun expected actual =>
         checkContactPoints expected actual
           check_position check_depth check_normal check_opposite_normal tol)
      expected_contacts actual_contacts (repeat false numContacts) true.

(** [getContactPointsFromResult] *)
Definition getContactPointsFromResult (result : CollisionResult) : list ContactPoint :=
  map (fun cnt => mkContactPoint (normal cnt) (pos cnt) (penetration_depth cnt))
      (contacts result).

Definition with_solver (request : CollisionRequest) (solver_type : GJKSolverType) (n : N)
  : CollisionRequest :=
  mkCollisionRequest n (enable_contact request) solver_type
    (enable_cached_gjk_guess request) (cached_gjk_guess request).

Definition with_enable_contact (request : CollisionRequest) (b : bool) : CollisionRequest :=
  mkCollisionRequest (num_max_contacts request) b (gjk_solver_type request)
    (enable_cached_gjk_guess request) (cached_gjk_guess request).

(** [testShapeIntersection] on two spheres: [true] when every [EXPECT_] of
    the run holds. [request0] is the default-constructed request. The test
    compares what [collide] returns with zero; that number is positive
    exactly when the result says collision. *)
Definition testShapeIntersection
    (request0 : CollisionRequest)
    (s1 : Sphere) (tf1 : Transform3d R) (s2 : Sphere) (tf2 : Transform3d R)
    (solver_type : GJKSolverType)
    (expected_res : bool) (expected_contacts : list ContactPoint)
    (check_position check_depth check_normal check_opposite_normal : bool)
    (tol : R) : bool :=
  let request := with_solver request0 solver_type size_t_max in
  (* Part A: Check collisions using shapeIntersect() *)
  let res1 := fst (shapeIntersect s1 tf1 s2 tf2 None) in
  let '(res2, actual_contacts) := shapeIntersect s1 tf1 s2 tf2 (Some []) in
  let inspectA :=
    if expected_res then
      match actual_contacts with
      | Some cs =>
          inspectContactPoints expected_contacts cs
            check_position check_depth check_normal check_opposite_normal tol
      | None => false
      end
    else true in
  (* Part B: Check collisions using collide() *)
  let res3 := is_collision (collide s1 tf1 s2 tf2 (with_enable_contact request false)) in
  let result := collide s1 tf1 s2 tf2 (with_enable_contact request true) in
  let res4 := is_collision result in
  let inspectB :=
    if expected_res then
      inspectContactPoints expected_contacts (getContactPointsFromResult result)
        check_position check_depth check_normal check_opposite_normal tol
    else true in
  Bool.eqb res1 expected_res && Bool.eqb res2 expected_res && inspectA &&
  Bool.eqb res3 expected_res && Bool.eqb res4 expected_res && inspectB.

(** The call with the default arguments of the test. *)
Definition testShapeIntersection_default
    (request0 : CollisionRequest)
    (s1 : Sphere) (tf1 : Transform3d R) (s2 : Sphere) (tf2 : Transform3d R)
    (solver_type : GJKSolverType)
    (expected_res : bool) (expected_contacts : list ContactPoint) : bool :=
  testShapeIntersection request0 s1 tf1 s2 tf2 solver_type expected_res expected_contacts
    true true true false 1e-9.

(** The body shared by [shapeIntersection_spheresphere] ([GST_LIBCCD]) and
    [shapeIntersectionGJK_spheresphere] ([GST_INDEP]), for the transform that
    [generateRandomTransform] drew. *)
Definition shapeIntersection_spheresphere
    (request0 : CollisionRequest) (solver_type : GJKSolverType)
    (transform_ : Transform3d R) : bool :=
  let s1 := mkSphere 20 in
  let s2 := mkSphere 10 in
  let run := testShapeIntersection_default request0 in
  let at_ (x : R) := Translation3d (mkVector3d x 0 0) in
  run s1 Transform3d_Identity s2 (at_ 40) solver_type false [] &&
  run s1 transform_ s2 (compose transform_ (at_ 40)) solver_type false [] &&
  run s1 Transform3d_Identity s2 (at_ 30) solver_type true
      [mkContactPoint (mkVector3d 1 0 0) (mkVector3d 20 0 0) 0.0] &&
  run s1 Transform3d_Identity s2 (at_ 30.01) solver_type false [] &&
  run s1 transform_ s2 (compose transform_ (at_ 30.01)) solver_type false [] &&
  run s1 Transform3d_Identity s2 (at_ 29.9) solver_type true
      [mkContactPoint (mkVector3d 1 0 0)
                      (mkVector3d (20.0 - 0.1 * 20.0 / (20.0 + 10.0)) 0 0) 0.1] &&
  run s1 transform_ s2 (compose transform_ (at_ 29.9)) solver_type true
      [mkContactPoint (mvmul (linear transform_) (mkVector3d 1 0 0))
                      (transform transform_
                         (mkVector3d (20.0 - 0.1 * 20.0 / (20.0 + 10.0)) 0 0)) 0.1] &&
  run s1 Transform3d_Identity s2 Transform3d_Identity solver_type true
      [mkContactPoint Vector3d_Zero Vector3d_Zero (20.0 + 10.0)] &&
  run s1 transform_ s2 transform_ solver_type true
      [mkContactPoint Vector3d_Zero (transform transform_ Vector3d_Zero) (20.0 + 10.0)] &&
  run s1 Transform3d_Identity s2 (at_ (-29.9)) solver_type true
      [mkContactPoint (mkVector3d (-1) 0 0)
                      (mkVector3d (-20.0 + 0.1 * 20.0 / (20.0 + 10.0)) 0 0) 0.1] &&
  run s1 transform_ s2 (compose transform_ (at_ (-29.9))) solver_type true
      [mkContactPoint (mvmul (linear transform_) (mkVector3d (-1) 0 0))
                      (transform transform_
                         (mkVector3d (-20.0 + 0.1 * 20.0 / (20.0 + 10.0)) 0 0)) 0.1] &&
  run s1 Transform3d_Identity s2 (at_ (-30.0)) solver_type true
      [mkContactPoint (mkVector3d (-1) 0 0) (mkVector3d (-20) 0 0) 0.0] &&
  run s1 Transform3d_Identity s2 (at_ (-30.01)) solver_type false [] &&
  run s1 transform_ s2 (compose transform_ (at_ (-30.01))) solver_type false [].

(** One distance call followed by [EXPECT_TRUE(fabs(dist - expected) < tol)]
    and [EXPECT_TRUE(res)]. *)
Definition expect_distance
    (s1 : Sphere) (tf1 : Transform3d R) (s2 : Sphere) (tf2 : Transform3d R)
    (expected tol : R) : bool :=
  let r := shapeDistance s1 tf1 s2 tf2 in
  Rltb (Rabs (dist r - expected)) tol && success r.

(** One distance call followed by [EXPECT_TRUE(dist < 0)] and
    [EXPECT_TRUE_FALSE(res)]. *)
Definition expect_overlap
    (s1 : Sphere) (tf1 : Transform3d R) (s2 : Sphere) (tf2 : Transform3d R) : bool :=
  let r := shapeDistance s1 tf1 s2 tf2 in
  Rltb (dist r) 0 && negb (success r).

(** The calls of [shapeDistance_spheresphere] and
    [shapeDistanceGJK_spheresphere]; the two differ in the tolerances of the
    last four separated calls ([tol1] to [tol4]) and in [transform_], which
    the first leaves at the identity. *)
Definition shapeDistance_spheresphere_body
    (transform_ : Transform3d R) (far : Vector3d R) (tol1 tol2 tol3 tol4 : R) : bool :=
  let s1 := mkSphere 20 in
  let s2 := mkSphere 10 in
  let id := @Transform3d_Identity R _ in
  let at_ (x : R) := Translation3d (mkVector3d x 0 0) in
  expect_distance s1 id s2 (Translation3d far) 10 0.001 &&
  expect_distance s1 id s2 (at_ 30.1) 0.1 0.001 &&
  expect_overlap s1 id s2 (at_ 29.9) &&
  expect_distance s1 (at_ 40) s2 id 10 0.001 &&
  expect_distance s1 (at_ 30.1) s2 id 0.1 0.001 &&
  expect_overlap s1 (at_ 29.9) s2 id &&
  expect_distance s1 transform_ s2 (compose transform_ (at_ 40)) 10 tol1 &&
  expect_distance s1 transform_ s2 (compose transform_ (at_ 30.1)) 0.1 tol2 &&
  expect_overlap s1 transform_ s2 (compose transform_ (at_ 29.9)) &&
  expect_distance s1 (compose transform_ (at_ 40)) s2 transform_ 10 tol3 &&
  expect_distance s1 (compose transform_ (at_ 30.1)) s2 transform_ 0.1 tol4 &&
  expect_overlap s1 (compose transform_ (at_ 29.9)) s2 transform_.

Definition shapeDistance_spheresphere : bool :=
  shapeDistance_spheresphere_body Transform3d_Identity (mkVector3d 0 40 0) 0.1 0.06 0.1 0.1.

Definition shapeDistanceGJK_spheresphere (transform_ : Transform3d R) : bool :=
  shapeDistance_spheresphere_body transform_ (mkVector3d 40 0 0) 0.001 0.001 0.001 0.001.
End GeometricShapesTest.

(** ** What the narrow phase is expected to compute on spheres *)

Section ExpectedSpheres.
Import Narrowphase.

(** The contact seen from the other operand: the normal is reversed. *)
Definition flip_contact (c : ContactPoint) : ContactPoint :=
  mkContactPoint (vopp (normal c)) (pos c) (penetration_depth c).

(** The contact after a rigid motion [T] of both operands. *)
Definition move_contact (T : Transform3d R) (c : ContactPoint) : ContactPoint :=
  mkContactPoint (mvmul (linear T) (normal c)) (transform T (pos c)) (penetration_depth c).

(** The distance result seen from the other operand: the closest points
    change places. *)
Definition flip_distance (r : DistanceResult) : DistanceResult :=
  mkDistanceResult (success r) (dist r)
    (option_map (fun p => (snd p, fst p)) (closest_points r)).

(** A request with another warm-start direction. *)
Definition with_cached_gjk_guess (request : CollisionRequest) (guess : Vector3d R)
  : CollisionRequest :=
  mkCollisionRequest (num_max_contacts request) (enable_contact request)
    (gjk_solver_type request) (enable_cached_gjk_guess request) guess.

(** A request with the warm start switched on or off. *)
Definition with_enable_cached_gjk_guess (request : CollisionRequest) (b : bool)
  : CollisionRequest :=
  mkCollisionRequest (num_max_contacts request) (enable_contact request)
    (gjk_solver_type request) b (cached_gjk_guess request).

(** A run of [collide] calls on one pair of spheres, one call per pair of
    transforms. With [feed], the direction that a call hands back goes into
    the request of the next call. The run yields the booleans. *)
Fixpoint collide_run
    (s1 s2 : Sphere) (feed : bool) (request : CollisionRequest)
    (tfs : list (Transform3d R * Transform3d R)) : list bool :=
  match tfs with
  | [] => []
  | (tf1, tf2) :: tfs' =>
      let result := collide s1 tf1 s2 tf2 request in
      let request' :=
        if feed then with_cached_gjk_guess request (result_cached_gjk_guess result)
        else request in
      is_collision result :: collide_run s1 s2 feed request' tfs'
  end.
End ExpectedSpheres.

(** ** What the header is expected to compute *)

Section Expected.
Context {F : Type} {SF : Scalar F}.
Local Open Scope fcl_scope.

(** [a] is [box] moved by [T]: on every axis both bounds are shifted by the
    component of [T]. *)
Definition translated_box (box : AABB F) (T : Vector3d F) (a : AABB F) : Prop :=
  forall i : Index3,
    vcoeff (min_ a) i = vcoeff (min_ box) i + vcoeff T i /\
    vcoeff (max_ a) i = vcoeff (max_ box) i + vcoeff T i.

(** [a] is the axis-aligned cube centered at [c] with half-width [r]: on every
    axis it spans from [c - r] to [c + r]. *)
Definition cube_around (c : Vector3d F) (r : F) (a : AABB F) : Prop :=
  forall i : Index3,
    vcoeff (min_ a) i = vcoeff c i - r /\
    vcoeff (max_ a) i = vcoeff c i + r.

(** The two axes other than [i], in increasing order. *)
Definition other_axes (i : Index3) : Index3 * Index3 :=
  match i with
  | I0 => (I1, I2)
  | I1 => (I0, I2)
  | I2 => (I0, I1)
  end.

(** The parallel-axis correction of an inertia matrix [C] about the origin
    for a body of mass [V] whose center of mass is [com], entry [(i, j)]. *)
Definition parallel_axis (C : Matrix3d F) (V : F) (com : Vector3d F) (i j : Index3) : F :=
  if Index3_eqb i j then
    let (j', k') := other_axes i in
    mcoeff C i i - V * (vcoeff com j' * vcoeff com j' + vcoeff com k' * vcoeff com k')
  else
    mcoeff C i j + V * vcoeff com i * vcoeff com j.
End Expected.

(** [p] lies in the box [a]. *)
Definition inside (a : AABB R) (p : Vector3d R) : Prop :=
  forall i : Index3,
    (vcoeff (min_ a) i <= vcoeff p i)%R /\ (vcoeff p i <= vcoeff (max_ a) i)%R.

(** ** Sample data *)

Module Sample.
Local Open Scope Z_scope.

(** A geometry with local box [-1, 1] x [-2, 2] x [-3, 3], a bounding
    sphere of radius 4 around the origin, volume 2, center of mass (1, 2, 3)
    and inertia diag(10, 20, 30) about the origin. *)
Definition geom : CollisionGeometry.geometry Z :=
  CollisionGeometry.mk
    (mkVector3d 0 0 0) 4
    (mkAABB (mkVector3d (-1) (-2) (-3)) (mkVector3d 1 2 3))
    0%nat 1 1 0 OT_GEOM GEOM_BOX
    (mkVector3d 1 2 3)
    (comma_init 10 0 0 0 20 0 0 0 30)
    2.

(** One geometry, at address 7. *)
Definition heap : Heap Z :=
  fun l => if (l =? 7)%nat then Some geom else None.

(** A quarter turn about the z axis. *)
Definition quarter_turn : Matrix3d Z := comma_init 0 (-1) 0 1 0 0 0 0 1.

(** An object at the identity whose world box is the local one. *)
Definition object : CollisionObject.object Z :=
  CollisionObject.mk (Some 7%nat) (Some 7%nat) Transform3d_Identity
    (mkAABB (mkVector3d (-1) (-2) (-3)) (mkVector3d 1 2 3)) 0%nat.

(** An object without geometry. *)
Definition orphan : CollisionObject.object Z :=
  CollisionObject.mk None None Transform3d_Identity
    (mkAABB (mkVector3d 0 0 0) (mkVector3d 0 0 0)) 0%nat.

(** A request that asks for one contact. *)
Definition request : Narrowphase.CollisionRequest :=
  Narrowphase.mkCollisionRequest 1%N true Narrowphase.GST_LIBCCD false
    (mkVector3d 1 0 0)%R.
End Sample.

(** ** fcl/collision_object.h: occupancy, cost density, constructors *)

(** The comparison [<=] of [FCL_REAL]; [a >= b] is [b <= a]. *)
Class ScalarOrder (F : Type) : Type := {
  s_leb : F -> F -> bool
}.

#[export] Instance Z_ScalarOrder : ScalarOrder Z := {| s_leb := Z.leb |}.

#[export] Instance R_ScalarOrder : ScalarOrder R :=
  {| s_leb := fun x y => if Rle_dec x y then true else false |}.

(** Storing a geometry at an address. *)
Definition heap_store {F : Type} (h : Heap F) (l : loc) (g : CollisionGeometry.geometry F)
  : Heap F :=
  fun l' => if (l' =? l)%nat then Some g else h l'.

Module Occupancy.
Section Defs.
Context {F : Type} {SF : Scalar F} {OF : ScalarOrder F}.
Import CollisionGeometry.

(** whether the object is completely occupied *)
Definition isOccupied (g : geometry F) : bool :=
  s_leb (threshold_occupied g) (cost_density g).

(** whether the object is completely free *)
Definition isFree (g : geometry F) : bool :=
  s_leb (cost_density g) (threshold_free g).

(** whether the object has some uncertainty *)
Definition isUncertain (g : geometry F) : bool :=
  negb (isOccupied g) && negb (isFree g).

(** [cost_density = c] on a geometry *)
Definition with_cost_density (g : geometry F) (c : F) : geometry F :=
  mk (aabb_center g) (aabb_radius g) (aabb_local g) (user_data g)
     c (threshold_occupied g) (threshold_free g)
     (getObjectType g) (getNodeType g)
     (computeCOM g) (computeMomentofInertia g) (computeVolume g).

(** The constructor [CollisionGeometry()]: it sets [cost_density],
    [threshold_occupied] and [threshold_free] and leaves the other members
    as the memory [raw] had them. *)
Definition CollisionGeometry_ctor (raw : geometry F) : geometry F :=
  mk (aabb_center raw) (aabb_radius raw) (aabb_local raw) (user_data raw)
     s_one s_one s_zero
     (getObjectType raw) (getNodeType raw)
     (computeCOM raw) (computeMomentofInertia raw) (computeVolume raw).
End Defs.
End Occupancy.

Module ObjectCost.
Section Defs.
Context {F : Type} {SF : Scalar F} {OF : ScalarOrder F}.
Import CollisionObject.

(** get object's cost density *)
Definition getCostDensity (h : Heap F) (o : object F) : option F :=
  option_map CollisionGeometry.cost_density (deref h (cgeom o)).

(** set object's cost density: the write goes through [cgeom] into the
    geometry, which other objects may share *)
Definition setCostDensity (c : F) (h : Heap F) (o : object F) : option (Heap F) :=
  match cgeom o with
  | Some l =>
      match h l with
      | Some g => Some (heap_store h l (Occupancy.with_cost_density g c))
      | None => None
      end
  | None => None
  end.

(** whether the object is completely occupied *)
Definition isOccupied (h : Heap F) (o : object F) : option bool :=
  option_map Occupancy.isOccupied (deref h (cgeom o)).

(** whether the object is completely free *)
Definition isFree (h : Heap F) (o : object F) : option bool :=
  option_map Occupancy.isFree (deref h (cgeom o)).

(** whether the object is uncertain *)
Definition isUncertain (h : Heap F) (o : object F) : option bool :=
  option_map Occupancy.isUncertain (deref h (cgeom o)).
End Defs.
End ObjectCost.

Module Construct.
Section Defs.
Context {F : Type} {SF : Scalar F} {EF : EigenOps F}.
Import CollisionObject.

(** What the pure virtual [computeLocalAABB()] does to the geometry it is
    called on, whatever the dynamic type. *)
Variable computeLocalAABB : CollisionGeometry.geometry F -> CollisionGeometry.geometry F.

(** The default-constructed [AABB] member. *)
Variable AABB_default : AABB F.

(** [cgeom->computeLocalAABB(); computeAABB();] on an object under
    construction. *)
Definition finish (h : Heap F) (o : object F) : option (Heap F * object F) :=
  match deref h (cgeom o) with
  | None => None
  | Some g =>
      match cgeom o with
      | None => None
      | Some l =>
          let h' := heap_store h l (computeLocalAABB g) in
          option_map (pair h') (computeAABB h' o)
      end
  end.

(** [CollisionObject(cgeom_)]: the only constructor that asks whether the
    pointer is null. [user_data] is not initialized; [raw] is what the memory
    held. *)
Definition CollisionObject_1 (h : Heap F) (cgeom_ : shared_ptr) (raw : void_ptr)
  : option (Heap F * object F) :=
  let o := mk cgeom_ cgeom_ Transform3d_Identity AABB_default raw in
  match cgeom_ with
  | Some _ => finish h o
  | None => Some (h, o)
  end.

(** [CollisionObject(cgeom_, tf)] *)
Definition CollisionObject_2 (h : Heap F) (cgeom_ : shared_ptr) (tf : Transform3d F)
    (raw : void_ptr) : option (Heap F * object F) :=
  finish h (mk cgeom_ cgeom_ tf AABB_default raw).

(** [CollisionObject(cgeom_, R, T)] *)
Definition CollisionObject_3 (h : Heap F) (cgeom_ : shared_ptr)
    (R : Matrix3d F) (T : Vector3d F) (raw : void_ptr) : option (Heap F * object F) :=
  let tf0 := Transform3d_Identity in
  let tf1 := set_linear tf0 R in
  let tf2 := set_translation tf1 T in
  finish h (mk cgeom_ cgeom_ tf2 AABB_default raw).
End Defs.
End Construct.

(** The world box of [o] is the one [computeAABB()] would store. *)
Definition fresh {F : Type} {SF : Scalar F} {EF : EigenOps F}
    (h : Heap F) (o : CollisionObject.object F) : Prop :=
  CollisionObject.computeAABB h o = Some o.

(** ** fcl/collision_object.h: ContinuousCollisionObject *)

(** The motions, Taylor models and interval vectors of fcl/ccd, which the
    header uses through these operations only. *)
Class TaylorOps (F : Type) : Type := {
  MotionBase : Type;
  TMatrix3 : Type;
  TVector3 : Type;
  IVector3 : Type;
  (** [motion->getTaylorModel(R, T)] *)
  getTaylorModel : MotionBase -> TMatrix3 * TVector3;
  (** [R * p] *)
  tm_mul : TMatrix3 -> Vector3d F -> TVector3;
  (** [a + T] *)
  tv_add : TVector3 -> TVector3 -> TVector3;
  (** [v.getTightBound()] *)
  getTightBound : TVector3 -> IVector3;
  (** [bound(a, b)] *)
  bound : IVector3 -> IVector3 -> IVector3;
  (** [box.getLow()] and [box.getHigh()] *)
  getLow : IVector3 -> Vector3d F;
  getHigh : IVector3 -> Vector3d F
}.

(** [v[i] = x] *)
Definition vset {F : Type} (v : Vector3d F) (i : Index3) (x : F) : Vector3d F :=
  match i with
  | I0 => mkVector3d x (vy v) (vz v)
  | I1 => mkVector3d (vx v) x (vz v)
  | I2 => mkVector3d (vx v) (vy v) x
  end.

(** The object for continuous collision or distance computation, contains
    the geometry and the motion information. *)
Module ContinuousCollisionObject.
Section Defs.
Context {F : Type} {SF : Scalar F} {TF : TaylorOps F}.

(** The motions that objects point to. *)
Definition MotionHeap : Type := loc -> option MotionBase.

Record object : Type := mk {
  cgeom : shared_ptr;
  cgeom_const : shared_ptr;
  motion : shared_ptr;
  (** AABB in the global coordinate for the motion *)
  aabb : AABB F;
  (** pointer to user defined data specific to this object *)
  user_data : void_ptr
}.

Definition deref_motion (mh : MotionHeap) (p : shared_ptr) : option MotionBase :=
  match p with
  | Some l => mh l
  | None => None
  end.

(** get the AABB in the world space for the motion *)
Definition getAABB (o : object) : AABB F := aabb o.

(** [(R * p + T).getTightBound()] *)
Definition tight_image (R : TMatrix3) (T : TVector3) (p : Vector3d F) : IVector3 :=
  getTightBound (tv_add (tm_mul R p) T).

(** compute the AABB in the world space for the motion *)
Definition computeAABB (h : Heap F) (mh : MotionHeap) (o : object) : option object :=
  match deref_motion mh (motion o) with
  | None => None
  | Some m =>
      match deref h (cgeom o) with
      | None => None
      | Some g =>
          let '(R, T) := getTaylorModel m in
          let lo := min_ (CollisionGeometry.aabb_local g) in
          let hi := max_ (CollisionGeometry.aabb_local g) in
          let p := lo in
          let box := tight_image R T p in
          let p := vset p I2 (vcoeff hi I2) in
          let box := bound box (tight_image R T p) in
          let p := vset p I1 (vcoeff hi I1) in
          let p := vset p I2 (vcoeff lo I2) in
          let box := bound box (tight_image R T p) in
          let p := vset p I2 (vcoeff hi I2) in
          let box := bound box (tight_image R T p) in
          let p := vset p I0 (vcoeff hi I0) in
          let p := vset p I1 (vcoeff lo I1) in
          let p := vset p I2 (vcoeff lo I2) in
          let box := bound box (tight_image R T p) in
          let p := vset p I2 (vcoeff hi I2) in
          let box := bound box (tight_image R T p) in
          let p := vset p I1 (vcoeff hi I1) in
          let p := vset p I2 (vcoeff lo I2) in
          let box := bound box (tight_image R T p) in
          let p := vset p I2 (vcoeff hi I2) in
          let box := bound box (tight_image R T p) in
          Some (mk (cgeom o) (cgeom_const o) (motion o)
                   (mkAABB (getLow box) (getHigh box)) (user_data o))
      end
  end.

(** get user data in object *)
Definition getUserData (o : object) : void_ptr := user_data o.

(** set user data in object *)
Definition setUserData (data : void_ptr) (o : object) : object :=
  mk (cgeom o) (cgeom_const o) (motion o) (aabb o) data.

(** get motion from the object instance *)
Definition getMotion (o : object) : shared_ptr := motion o.

(** get geometry from the object instance *)
Definition collisionGeometry (o : object) : shared_ptr := cgeom_const o.

(** [ContinuousCollisionObject(cgeom_)]: [motion] is a null pointer;
    [aabb] is default-constructed ([AABB_default]) and [user_data] is what
    the memory held ([raw]). *)
Definition ContinuousCollisionObject_1 (AABB_default : AABB F) (cgeom_ : shared_ptr)
    (raw : void_ptr) : object :=
  mk cgeom_ cgeom_ None AABB_default raw.

(** [ContinuousCollisionObject(cgeom_, motion_)] *)
Definition ContinuousCollisionObject_2 (AABB_default : AABB F) (cgeom_ motion_ : shared_ptr)
    (raw : void_ptr) : object :=
  mk cgeom_ cgeom_ motion_ AABB_default raw.

(** The corner of a box that takes the upper bound on the axes whose flag
    is set and the lower bound on the others. *)
Definition corner (box : AABB F) (ux uy uz : bool) : Vector3d F :=
  mkVector3d (if ux then vx (max_ box) else vx (min_ box))
             (if uy then vy (max_ box) else vy (min_ box))
             (if uz then vz (max_ box) else vz (min_ box)).

(** The corners after the first, in the order [computeAABB] visits them. *)
Definition later_corners (box : AABB F) : list (Vector3d F) :=
  [corner box false false true; corner box false true false; corner box false true true;
   corner box true false false; corner box true false true; corner box true true false;
   corner box true true true].

(** The bound of the images of a first point and of the points after it. *)
Definition image_bound (R : TMatrix3) (T : TVector3) (p : Vector3d F)
    (ps : list (Vector3d F)) : IVector3 :=
  fold_left (fun box q => bound box (tight_image R T q)) ps (tight_image R T p).
End Defs.
End ContinuousCollisionObject.

(** Integer boxes as interval vectors, and a motion that is one fixed
    transform: the instance the examples run on. *)
Definition Z_hull (a b : Vector3d Z * Vector3d Z) : Vector3d Z * Vector3d Z :=
  (mkVector3d (Z.min (vx (fst a)) (vx (fst b))) (Z.min (vy (fst a)) (vy (fst b)))
              (Z.min (vz (fst a)) (vz (fst b))),
   mkVector3d (Z.max (vx (snd a)) (vx (snd b))) (Z.max (vy (snd a)) (vy (snd b)))
              (Z.max (vz (snd a)) (vz (snd b)))).

#[export] Instance Z_TaylorOps : TaylorOps Z :=
  {| MotionBase := Transform3d Z;
     TMatrix3 := Matrix3d Z;
     TVector3 := Vector3d Z;
     IVector3 := Vector3d Z * Vector3d Z;
     getTaylorModel := fun m => (linear m, translation m);
     tm_mul := mvmul;
     tv_add := vadd;
     getTightBound := fun v => (v, v);
     bound := Z_hull;
     getLow := fst;
     getHigh := snd |}.

(** [a] lies within [b]. *)
Definition Z_within (a b : Vector3d Z * Vector3d Z) : Prop :=
  (vx (fst b) <= vx (fst a) /\ vy (fst b) <= vy (fst a) /\ vz (fst b) <= vz (fst a) /\
   vx (snd a) <= vx (snd b) /\ vy (snd a) <= vy (snd b) /\ vz (snd a) <= vz (snd b))%Z.

(** ** fcl/hash.h: SimpleHashTable *)

(** A loop over a vector whose body can run into undefined behaviour:
    the first failing iteration ends the run. *)
Definition for_each {S A : Type} (body : S -> A -> option S) (l : list A) (s : S) : option S :=
  fold_left (fun acc a => match acc with Some s' => body s' a | None => None end) l (Some s).

(** [std::vector::resize]: the first bins stay, new ones are empty. *)
Definition resize {A : Type} (n : nat) (d : A) (v : list A) : list A :=
  firstn n v ++ repeat d (n - length v).

(** [v[i] = f(v[i])] on a vector, for [i] in range. *)
Fixpoint update_at {A : Type} (f : A -> A) (i : nat) (v : list A) : list A :=
  match v, i with
  | [], _ => []
  | b :: v', O => f b :: v'
  | b :: v', S i' => b :: update_at f i' v'
  end.

(** What a call gives: a value, an exception or undefined behaviour. *)
Inductive outcome (A : Type) : Type :=
| Returned (a : A)
| Thrown_logic_error (what : String.string)
| Undefined.
Arguments Returned {A} a.
Arguments Thrown_logic_error {A} what.
Arguments Undefined {A}.

Module SimpleHashTable.
Section Defs.
Variables Key Data : Type.
(** [operator==] and [operator<] of [Data]. *)
Variable Data_eqb : Data -> Data -> bool.
Variable Data_ltb : Data -> Data -> bool.
(** HashFnc is any extended hash function:
    HashFnc(key) = {index1, index2, ..., } *)
Variable h_ : Key -> list N.

Definition Bin : Type := list Data.
(** [table_] *)
Definition table : Type := list Bin.

(** [table_[i]] for [i] in range. *)
Definition bin (t : table) (i : N) : Bin := nth (N.to_nat i) t [].

(** [table_.size()] *)
Definition size (t : table) : N := N.of_nat (length t).

(** [SimpleHashTable(h)]: the table starts without bins. *)
Definition SimpleHashTable_ctor : table := [].

Definition init (size_ : N) (t : table) : outcome table :=
  if (size_ =? 0)%N
  then Thrown_logic_error "SimpleHashTable must have non-zero size."%string
  else Returned (resize (N.to_nat size_) [] t).

(** [indices[i] % range] *)
Definition index_of (range idx : N) : option N :=
  if (range =? 0)%N then None else Some (idx mod range)%N.

Definition insert (key : Key) (value : Data) (t : table) : option table :=
  let indices := h_ key in
  let range := size t in
  for_each (fun t' idx =>
              match index_of range idx with
              | None => None
              | Some index => Some (update_at (fun b => b ++ [value]) (N.to_nat index) t')
              end) indices t.

(** [std::set<Data>::insert]: the elements stay in ascending order, one
    of each class of [<]-incomparable values. *)
Fixpoint set_insert (x : Data) (s : list Data) : list Data :=
  match s with
  | [] => [x]
  | y :: s' =>
      if Data_ltb x y then x :: s
      else if Data_ltb y x then y :: set_insert x s'
      else s
  end.

(** [std::copy(first, last, std::inserter(result, result.end()))] *)
Definition copy_into (b : Bin) (result : list Data) : list Data :=
  fold_left (fun s x => set_insert x s) b result.

Definition query (key : Key) (t : table) : option (list Data) :=
  let range := size t in
  let indices := h_ key in
  for_each (fun result idx =>
              match index_of range idx with
              | None => None
              | Some index => Some (copy_into (bin t index) result)
              end) indices [].

(** [std::list::remove]: drops every element equal to [value]. *)
Definition list_remove (value : Data) (b : Bin) : Bin :=
  filter (fun x => negb (Data_eqb x value)) b.

Definition remove (key : Key) (value : Data) (t : table) : option table :=
  let range := size t in
  let indices := h_ key in
  for_each (fun t' idx =>
              match index_of range idx with
              | None => None
              | Some index => Some (update_at (list_remove value) (N.to_nat index) t')
              end) indices t.

Definition clear (t : table) : table := [].

(** The bins that the hash function gives [key] in a table of [range]
    bins. *)
Definition bins_of (range : N) (key : Key) : list N :=
  map (fun idx => (idx mod range)%N) (h_ key).

(** How many of the indices of [key] fall into bin [i]. *)
Definition hits (range : N) (key : Key) (i : N) : nat :=
  count_occ N.eq_dec (bins_of range key) i.
End Defs.
End SimpleHashTable.

(** What the theorems ask of [operator==] and [operator<]: equality is
    decided, and [<] is a strict total order, as [std::set] requires. *)
Record DataOrder (Data : Type) (eqb ltb : Data -> Data -> bool) : Prop := {
  eqb_eq : forall x y, eqb x y = true <-> x = y;
  ltb_irrefl : forall x, ltb x x = false;
  ltb_trans : forall x y z, ltb x y = true -> ltb y z = true -> ltb x z = true;
  ltb_total : forall x y, ltb x y = false -> ltb y x = false -> x = y
}.

(** ** More sample data *)

Module SampleMore.
Local Open Scope Z_scope.

(** A [computeLocalAABB()] for the sample geometry: it writes the local
    box, its center and its radius, and leaves the other members alone. *)
Definition computeLocalAABB (g : CollisionGeometry.geometry Z) : CollisionGeometry.geometry Z :=
  CollisionGeometry.mk
    (mkVector3d 0 0 0) 4
    (mkAABB (mkVector3d (-1) (-2) (-3)) (mkVector3d 1 2 3))
    (CollisionGeometry.user_data g) (CollisionGeometry.cost_density g)
    (CollisionGeometry.threshold_occupied g) (CollisionGeometry.threshold_free g)
    (CollisionGeometry.getObjectType g) (CollisionGeometry.getNodeType g)
    (CollisionGeometry.computeCOM g) (CollisionGeometry.computeMomentofInertia g)
    (CollisionGeometry.computeVolume g).

(** A default-constructed box. *)
Definition AABB_default : AABB Z := mkAABB (mkVector3d 1 1 1) (mkVector3d (-1) (-1) (-1)).

(** The sample transform: a quarter turn about z, then a shift. *)
Definition turned : Transform3d Z := mkTransform3d Sample.quarter_turn (mkVector3d 10 20 30).

(** The sample object after [setTransform(turned)] and [computeAABB()]. *)
Definition turned_object : CollisionObject.object Z :=
  CollisionObject.mk (Some 7%nat) (Some 7%nat) turned
    (mkAABB (mkVector3d 6 16 26) (mkVector3d 14 24 34)) 0%nat.

(** The sample heap after [setCostDensity(5)] through the sample object. *)
Definition heap5 : Heap Z :=
  heap_store Sample.heap 7%nat (Occupancy.with_cost_density Sample.geom 5).

(** A continuous object over the sample geometry, whose motion is at
    address 3. *)
Definition moving : ContinuousCollisionObject.object (F := Z) :=
  ContinuousCollisionObject.mk (Some 7%nat) (Some 7%nat) (Some 3%nat)
    (mkAABB (mkVector3d 0 0 0) (mkVector3d 0 0 0)) 0%nat.

Definition motions : ContinuousCollisionObject.MotionHeap (F := Z) :=
  fun l => if (l =? 3)%nat then Some turned else None.
End SampleMore.

(** The Eigen operations read exactly over the reals. *)
Definition R_vec_eqb (a b : Vector3d R) : bool :=
  (if Req_dec_T (vx a) (vx b) then true else false) &&
  (if Req_dec_T (vy a) (vy b) then true else false) &&
  (if Req_dec_T (vz a) (vz b) then true else false).

Definition R_mat_eqb (a b : Matrix3d R) : bool :=
  R_vec_eqb (row0 a) (row0 b) && R_vec_eqb (row1 a) (row1 b) && R_vec_eqb (row2 a) (row2 b).

Definition R_toRotationMatrix (q : Quaternion3d R) : Matrix3d R :=
  let tx := (2 * qx q)%R in
  let ty := (2 * qy q)%R in
  let tz := (2 * qz q)%R in
  let twx := (tx * qw q)%R in
  let twy := (ty * qw q)%R in
  let twz := (tz * qw q)%R in
  let txx := (tx * qx q)%R in
  let txy := (ty * qx q)%R in
  let txz := (tz * qx q)%R in
  let tyy := (ty * qy q)%R in
  let tyz := (tz * qy q)%R in
  let tzz := (tz * qz q)%R in
  comma_init
    (1 - (tyy + tzz))%R (txy - twz)%R (txz + twy)%R
    (txy + twz)%R (1 - (txx + tzz))%R (tyz - twx)%R
    (txz - twy)%R (tyz + twx)%R (1 - (txx + tyy))%R.

Definition R_EigenOps : EigenOps R :=
  {| isIdentity := fun m => R_mat_eqb m Matrix3d_Identity;
     isZero := fun v => R_vec_eqb v Vector3d_Zero;
     toRotationMatrix := R_toRotationMatrix |}.

Module SampleTable.
(** A hash function that gives a key the indices [key] and [key + 1]. *)
Definition h_ (key : N) : list N := [key; (key + 1)%N].

(** Three bins: 10 under keys 0 and 1, 20 twice under key 1. *)
Definition filled : SimpleHashTable.table Z := [[10%Z]; [10%Z; 20%Z]; [20%Z]].
End SampleTable.

Module SampleReal.
Local Open Scope R_scope.

(** The sample geometry over the reals. *)
Definition geom : CollisionGeometry.geometry R :=
  CollisionGeometry.mk
    (mkVector3d 0 0 0) 4
    (mkAABB (mkVector3d (-1) (-2) (-3)) (mkVector3d 1 2 3))
    0%nat 1 1 0 OT_GEOM GEOM_BOX
    (mkVector3d 1 2 3)
    (comma_init 10 0 0 0 20 0 0 0 30)
    2.

Definition heap : Heap R :=
  fun l => if (l =? 7)%nat then Some geom else None.

Definition quarter_turn : Matrix3d R := comma_init 0 (-1) 0 1 0 0 0 0 1.

(** A geometry that overrides none of the virtual functions of the base
    class. *)
Definition base_geom : CollisionGeometry.geometry R :=
  CollisionGeometry.mk
    (mkVector3d 0 0 0) 4
    (mkAABB (mkVector3d (-1) (-2) (-3)) (mkVector3d 1 2 3))
    0%nat 1 1 0 CollisionGeometry.base_getObjectType CollisionGeometry.base_getNodeType
    CollisionGeometry.base_computeCOM
    CollisionGeometry.base_computeMomentofInertia
    CollisionGeometry.base_computeVolume.

(** An object turned by a quarter and shifted, with a box not computed yet. *)
Definition turned_object : CollisionObject.object R :=
  CollisionObject.mk (Some 7%nat) (Some 7%nat)
    (mkTransform3d quarter_turn (mkVector3d 10 20 30))
    (mkAABB (mkVector3d 0 0 0) (mkVector3d 0 0 0)) 0%nat.
End SampleReal.

(** ** test/test_fcl_geometric_shapes.cpp: matching and comparators *)

(** The actual contacts that no expected contact has taken yet. *)
Fixpoint untaken {A : Type} (actual : list A) (taken : list bool) : list A :=
  match actual, taken with
  | a :: actual', tk :: taken' =>
      if tk then untaken actual' taken' else a :: untaken actual' taken'
  | _, _ => []
  end.

(** [compareContactPoints1]: ascending order along z. *)
Definition compareContactPoints1 (c1 c2 : Vector3d R) : bool :=
  Rltb (vcoeff c1 I2) (vcoeff c2 I2).

(** [compareContactPoints2]: ascending order of the positions along z. *)
Definition compareContactPoints2 (cp1 cp2 : Narrowphase.ContactPoint) : bool :=
  Rltb (vcoeff (Narrowphase.pos cp1) I2) (vcoeff (Narrowphase.pos cp2) I2).

Module SampleContacts.
Local Open Scope R_scope.

(** A contact at the origin with no normal and the given depth. *)
Definition at_depth (x : R) : Narrowphase.ContactPoint :=
  Narrowphase.mkContactPoint (mkVector3d 0 0 0) (mkVector3d 0 0 0) x.
End SampleContacts.

(** * Theorems *)

(** ** [CollisionGeometry] *)

Section CollisionGeometryFacts.
Context {F : Type} {SF : Scalar F}.

(** C10. For every geometry, each entry of
    [computeMomentofInertiaRelatedToCOM()] is the entry of
    [computeMomentofInertia()] corrected by the parallel-axis formula with
    [computeVolume()] as the mass and [computeCOM()] as the center of mass:
    a diagonal entry loses V * (com_j^2 + com_k^2) over the two other axes,
    an off-diagonal entry (i, j) gains V * com_i * com_j. *)
Theorem computeMomentofInertiaRelatedToCOM_parallel_axis :
  forall (g : CollisionGeometry.geometry F) (i j : Index3),
    mcoeff (CollisionGeometry.computeMomentofInertiaRelatedToCOM g) i j =
    parallel_axis (CollisionGeometry.computeMomentofInertia g)
                  (CollisionGeometry.computeVolume g)
                  (CollisionGeometry.computeCOM g) i j.
Proof.
  intros g i j.
  destruct i, j; reflexivity.
Qed.

Lemma setUserData_getUserData (g : CollisionGeometry.geometry F) (data : void_ptr) :
  CollisionGeometry.getUserData (CollisionGeometry.setUserData data g) = data.
Proof. reflexivity. Qed.
End CollisionGeometryFacts.

(** Over the reals the correction is the parallel-axis theorem in its
    tensor form: [C - V * ((com . com) * E - com (x) com)], with [E] the
    identity matrix. *)
Lemma parallel_axis_tensor_form (C : Matrix3d R) (V : R) (com : Vector3d R) (i j : Index3) :
  parallel_axis C V com i j =
  (mcoeff C i j -
   V * (vdot com com * mcoeff Matrix3d_Identity i j - vcoeff com i * vcoeff com j))%R.
Proof.
  destruct C as [[? ? ?] [? ? ?] [? ? ?]], com as [x y z].
  destruct i, j; cbn; ring.
Qed.

(** X13. With a geometry that overrides nothing the inertia about the center of
    mass is the zero matrix of the base class, entry by entry. *)
Lemma computeMomentofInertiaRelatedToCOM_base (g : CollisionGeometry.geometry R) (i j : Index3) :
  CollisionGeometry.computeCOM g = CollisionGeometry.base_computeCOM ->
  CollisionGeometry.computeMomentofInertia g = CollisionGeometry.base_computeMomentofInertia ->
  CollisionGeometry.computeVolume g = CollisionGeometry.base_computeVolume ->
  mcoeff (CollisionGeometry.computeMomentofInertiaRelatedToCOM g) i j = 0%R.
Proof.
  intros Hcom HC HV.
  unfold CollisionGeometry.computeMomentofInertiaRelatedToCOM.
  rewrite Hcom, HC, HV.
  destruct i, j; cbn; ring.
Qed.

(** ** [CollisionObject] *)

Section CollisionObjectFacts.
Context {F : Type} {SF : Scalar F} {EF : EigenOps F}.
Import CollisionObject.

Lemma computeAABB_null (h : Heap F) (o : object F) :
  cgeom o = None -> computeAABB h o = None.
Proof.
  intros Hnull. unfold computeAABB. rewrite Hnull. reflexivity.
Qed.

Lemma translate_translated_box (box : AABB F) (T : Vector3d F) :
  translated_box box T (translate box T).
Proof.
  intros i. destruct i; split; reflexivity.
Qed.

Lemma center_delta_cube_around (c : Vector3d F) (r : F) :
  cube_around c r (mkAABB (vsub c (Vector3d_Constant r)) (vadd c (Vector3d_Constant r))).
Proof.
  intros i. destruct i; split; reflexivity.
Qed.

(** C8. [computeAABB()] on an object whose geometry pointer is valid
    succeeds and touches the world AABB only. When the linear part of the
    transform passes [isIdentity()], the new world AABB is the local AABB of
    the geometry translated by the translation of the object: on every axis
    both bounds are shifted by that translation. When it does not, the new
    world AABB is the cube centered at the transformed local AABB center
    whose half-width on every axis is the local AABB radius. *)
Theorem computeAABB_world_aabb :
  forall (h : Heap F) (o : object F) (g : CollisionGeometry.geometry F),
    deref h (cgeom o) = Some g ->
    exists o' : object F,
      computeAABB h o = Some o' /\
      o' = with_aabb o (getAABB o') /\
      (isIdentity (linear (t o)) = true ->
       getAABB o' = translate (CollisionGeometry.aabb_local g) (getTranslation o) /\
       translated_box (CollisionGeometry.aabb_local g) (getTranslation o) (getAABB o')) /\
      (isIdentity (linear (t o)) = false ->
       cube_around (transform (t o) (CollisionGeometry.aabb_center g))
                   (CollisionGeometry.aabb_radius g) (getAABB o')).
Proof.
  intros h o g Hg.
  unfold computeAABB. rewrite Hg.
  destruct (isIdentity (linear (t o))) eqn:Hid.
  - eexists. split; [reflexivity |]. split; [reflexivity |]. split.
    + intros _. split; [reflexivity | apply translate_translated_box].
    + discriminate.
  - eexists. split; [reflexivity |]. split; [reflexivity |]. split.
    + discriminate.
    + intros _. apply center_delta_cube_around.
Qed.

(** When [isIdentity()] accepts the identity matrix, as it does for every
    precision, an object whose linear part is exactly the identity gets its
    local AABB translated. *)
Lemma computeAABB_exact_identity (h : Heap F) (o : object F) (g : CollisionGeometry.geometry F) :
  isIdentity (@Matrix3d_Identity F _) = true ->
  deref h (cgeom o) = Some g ->
  linear (t o) = Matrix3d_Identity ->
  option_map getAABB (computeAABB h o) =
  Some (translate (CollisionGeometry.aabb_local g) (getTranslation o)).
Proof.
  intros HI Hg Hlin. unfold computeAABB. rewrite Hg, Hlin, HI. reflexivity.
Qed.

(** What each setter does to the stored transform. *)
Lemma setRotation_tf (R : Matrix3d F) (o : object F) :
  getRotation (setRotation R o) = R /\
  getTranslation (setRotation R o) = getTranslation o.
Proof. split; reflexivity. Qed.

Lemma setTranslation_tf (T : Vector3d F) (o : object F) :
  getTranslation (setTranslation T o) = T /\
  getRotation (setTranslation T o) = getRotation o.
Proof. split; reflexivity. Qed.

Lemma setQuatRotation_tf (q : Quaternion3d F) (o : object F) :
  getRotation (setQuatRotation q o) = toRotationMatrix q /\
  getTranslation (setQuatRotation q o) = getTranslation o.
Proof. split; reflexivity. Qed.

Lemma setTransform_RT_tf (R : Matrix3d F) (T : Vector3d F) (o : object F) :
  getTransform (setTransform_RT R T o) = mkTransform3d R T.
Proof. reflexivity. Qed.

Lemma setTransform_qT_tf (q : Quaternion3d F) (T : Vector3d F) (o : object F) :
  getTransform (setTransform_qT q T o) = mkTransform3d (toRotationMatrix q) T.
Proof. reflexivity. Qed.

Lemma setTransform_tf (tf' : Transform3d F) (o : object F) :
  getTransform (setTransform tf' o) = tf'.
Proof. reflexivity. Qed.

(** One call replaces the transform and nothing else. *)
Lemma call_only_tf (o : object F) (c : TransformCall F) :
  call o c = with_t o (getTransform (call o c)).
Proof.
  destruct c; reflexivity.
Qed.

Lemma with_t_with_t (o : object F) (a b : Transform3d F) :
  with_t (with_t o a) b = with_t o b.
Proof. reflexivity. Qed.

Lemma calls_only_tf (cs : list (TransformCall F)) :
  forall o : object F, calls o cs = with_t o (getTransform (calls o cs)).
Proof.
  induction cs as [| c cs IH]; intros o.
  - destruct o; reflexivity.
  - unfold calls in *. simpl fold_left.
    rewrite (IH (call o c)) at 1.
    rewrite (call_only_tf o c) at 1.
    apply with_t_with_t.
Qed.

(** C9. Any run of [setRotation], [setTranslation], [setQuatRotation] and
    [setTransform] calls changes the stored transform and nothing else: the
    world AABB that [getAABB()] returns, both geometry pointers and the user
    data are those from before the run, so the box stays the old one for as
    long as [computeAABB()] is not called. *)
Theorem transform_setters_change_only_tf :
  forall (o : object F) (cs : list (TransformCall F)),
    calls o cs = with_t o (getTransform (calls o cs)) /\
    getAABB (calls o cs) = getAABB o /\
    cgeom (calls o cs) = cgeom o /\
    collisionGeometry (calls o cs) = collisionGeometry o /\
    getUserData (calls o cs) = getUserData o.
Proof.
  intros o cs.
  pose proof (calls_only_tf cs o) as H.
  split; [exact H |].
  rewrite H. repeat split.
Qed.

(** Once [computeAABB()] is called after such a run, the box is the one of
    the new transform. *)
Lemma computeAABB_after_calls (h : Heap F) (o : object F) (cs : list (TransformCall F)) :
  computeAABB h (calls o cs) =
  computeAABB h (with_t o (getTransform (calls o cs))).
Proof.
  rewrite <- calls_only_tf. reflexivity.
Qed.

Lemma setIdentityTransform_only_tf (o : object F) :
  setIdentityTransform o = with_t o Transform3d_Identity.
Proof. reflexivity. Qed.
End CollisionObjectFacts.

(** ** Real vectors *)

Section RealVectors.
Local Open Scope R_scope.

Lemma Rleb_true (x y : R) : x <= y -> Rleb x y = true.
Proof. intros H. unfold Rleb. destruct (Rle_dec x y); [reflexivity | contradiction]. Qed.

Lemma Rleb_false (x y : R) : y < x -> Rleb x y = false.
Proof. intros H. unfold Rleb. destruct (Rle_dec x y); [lra | reflexivity]. Qed.

Lemma Rltb_true (x y : R) : x < y -> Rltb x y = true.
Proof. intros H. unfold Rltb. destruct (Rlt_dec x y); [reflexivity | contradiction]. Qed.

Lemma Rltb_false (x y : R) : y <= x -> Rltb x y = false.
Proof. intros H. unfold Rltb. destruct (Rlt_dec x y); [lra | reflexivity]. Qed.

Lemma Rleb_spec (x y : R) : Rleb x y = true <-> x <= y.
Proof.
  split; [| apply Rleb_true].
  unfold Rleb. destruct (Rle_dec x y); [trivial | discriminate].
Qed.

Lemma Rltb_spec (x y : R) : Rltb x y = true <-> x < y.
Proof.
  split; [| apply Rltb_true].
  unfold Rltb. destruct (Rlt_dec x y); [trivial | discriminate].
Qed.

Lemma vec_ext (a b : Vector3d R) :
  vx a = vx b -> vy a = vy b -> vz a = vz b -> a = b.
Proof. destruct a, b; simpl; intros -> -> ->; reflexivity. Qed.

Lemma squaredNorm_nonneg (v : Vector3d R) : 0 <= squaredNorm v.
Proof. destruct v as [x y z]. unfold squaredNorm, vdot; cbn. nra. Qed.

Lemma norm_nonneg (v : Vector3d R) : 0 <= norm v.
Proof. apply sqrt_pos. Qed.

Lemma norm_square (v : Vector3d R) : norm v * norm v = squaredNorm v.
Proof. apply sqrt_sqrt, squaredNorm_nonneg. Qed.

(** A vector whose squared length is [a * a] with [a] not negative has
    length [a]. *)
Lemma norm_of_square (v : Vector3d R) (a : R) :
  0 <= a -> squaredNorm v = a * a -> norm v = a.
Proof. intros Ha Hv. unfold norm. rewrite Hv. apply sqrt_square, Ha. Qed.

Lemma norm_zero_iff (v : Vector3d R) : norm v = 0 <-> v = Vector3d_Zero.
Proof.
  split.
  - intros H. pose proof (norm_square v) as Hs. rewrite H in Hs.
    destruct v as [x y z]. unfold squaredNorm, vdot in Hs; cbn in Hs.
    apply vec_ext; cbn; nra.
  - intros ->. apply norm_of_square; [lra |].
    unfold squaredNorm, vdot; cbn. ring.
Qed.

Lemma norm_vsub_sym (a b : Vector3d R) : norm (vsub a b) = norm (vsub b a).
Proof.
  unfold norm. f_equal. destruct a, b. unfold squaredNorm, vdot; cbn. ring.
Qed.

Lemma vsub_self (a : Vector3d R) : vsub a a = Vector3d_Zero.
Proof. destruct a. apply vec_ext; cbn; ring. Qed.
End RealVectors.

(** ** Spheres *)

Section SphereFacts.
Import Narrowphase.
Local Open Scope R_scope.

(** The routine reports a collision exactly when the centers are no further
    apart than the sum of the radii. *)
Lemma sphereSphereIntersect_iff (s1 s2 : Sphere) (tf1 tf2 : Transform3d R) :
  sphereSphereIntersect s1 tf1 s2 tf2 <> None <->
  norm (vsub (center tf2) (center tf1)) <= radius s1 + radius s2.
Proof.
  unfold sphereSphereIntersect.
  destruct (Rleb _ _) eqn:H.
  - apply Rleb_spec in H. split; [intros _; exact H | discriminate].
  - split; [intros C; contradiction C; reflexivity |].
    intros C. apply Rleb_spec in C. congruence.
Qed.

(** With contacts enabled and room for one, [collide] hands back what the
    closed-form routine found. *)
Lemma collide_contact (s1 s2 : Sphere) (tf1 tf2 : Transform3d R)
      (request : CollisionRequest) (c : ContactPoint) :
  enable_contact request = true ->
  (1 <= num_max_contacts request)%N ->
  sphereSphereIntersect s1 tf1 s2 tf2 = Some c ->
  is_collision (collide s1 tf1 s2 tf2 request) = true /\
  contacts (collide s1 tf1 s2 tf2 request) = [c].
Proof.
  intros Hen Hmax Hc. unfold collide. rewrite Hc, Hen. simpl is_collision.
  split; [reflexivity |].
  simpl. destruct (N.eqb_spec (num_max_contacts request) 0) as [Hz | _]; [lia |].
  reflexivity.
Qed.

Lemma collide_is_collision (s1 s2 : Sphere) (tf1 tf2 : Transform3d R)
      (request : CollisionRequest) :
  is_collision (collide s1 tf1 s2 tf2 request) =
  match sphereSphereIntersect s1 tf1 s2 tf2 with Some _ => true | None => false end.
Proof.
  unfold collide. destruct (sphereSphereIntersect s1 tf1 s2 tf2); reflexivity.
Qed.

(** The contact of two spheres whose centers are [len > 0] apart with
    [len <= r1 + r2]. *)
Lemma sphereSphereIntersect_apart (s1 s2 : Sphere) (tf1 tf2 : Transform3d R) (len : R) :
  norm (vsub (center tf2) (center tf1)) = len ->
  0 < len -> len <= radius s1 + radius s2 ->
  sphereSphereIntersect s1 tf1 s2 tf2 =
  Some (mkContactPoint
          (vdiv (vsub (center tf2) (center tf1)) len)
          (vadd (center tf1)
                (vscale (vsub (center tf2) (center tf1))
                        (radius s1 / (radius s1 + radius s2))))
          (radius s1 + radius s2 - len)).
Proof.
  intros Hlen Hpos Hle. unfold sphereSphereIntersect. rewrite Hlen.
  rewrite (Rleb_true Hle), (Rltb_true Hpos).
  rewrite Rmax_right by lra. reflexivity.
Qed.

(** The contact of two spheres with the same world center. *)
Lemma sphereSphereIntersect_concentric (s1 s2 : Sphere) (tf1 tf2 : Transform3d R) :
  0 <= radius s1 + radius s2 ->
  center tf1 = center tf2 ->
  sphereSphereIntersect s1 tf1 s2 tf2 =
  Some (mkContactPoint Vector3d_Zero (center tf1) (radius s1 + radius s2)).
Proof.
  intros Hr Hc.
  unfold sphereSphereIntersect. rewrite <- Hc, vsub_self.
  assert (Hn : norm Vector3d_Zero = 0) by (apply norm_zero_iff; reflexivity).
  rewrite Hn.
  rewrite Rleb_true by lra. rewrite Rltb_false by lra.
  rewrite Rmax_right by lra.
  f_equal. f_equal.
  - destruct (center tf1). apply vec_ext; cbn; ring.
  - ring.
Qed.

(** C2. Sphere(20) at the identity against Sphere(10) moved by (29.9, 0, 0):
    [collide] reports a collision with exactly one contact, of normal
    (1, 0, 0), depth 0.1 and position (20 - 0.1 * 20 / (20 + 10), 0, 0). *)
Theorem collide_sphere20_sphere10_at_29_9 :
  forall request : CollisionRequest,
    enable_contact request = true ->
    (1 <= num_max_contacts request)%N ->
    let result :=
      collide (mkSphere 20) Transform3d_Identity
              (mkSphere 10) (Translation3d (mkVector3d 29.9 0 0)) request in
    is_collision result = true /\
    contacts result =
      [mkContactPoint (mkVector3d 1 0 0)
                      (mkVector3d (20 - 0.1 * 20 / (20 + 10)) 0 0)
                      0.1].
Proof.
  intros request Hen Hmax result. subst result.
  apply collide_contact; [exact Hen | exact Hmax |].
  rewrite (@sphereSphereIntersect_apart _ _ _ _ 29.9).
  - f_equal. f_equal.
    + apply vec_ext; cbn; lra.
    + apply vec_ext; cbn; lra.
    + cbn. lra.
  - apply norm_of_square; [lra |].
    unfold squaredNorm, vdot; cbn. ring.
  - lra.
  - cbn. lra.
Qed.

(** C3. Two spheres with the same world center: [collide] reports a
    collision with one contact whose normal is the zero vector, whose depth
    is [r1 + r2] and whose position is the common center. *)
Theorem collide_concentric_spheres :
  forall (s1 s2 : Sphere) (tf1 tf2 : Transform3d R) (request : CollisionRequest),
    0 <= radius s1 -> 0 <= radius s2 ->
    center tf1 = center tf2 ->
    enable_contact request = true ->
    (1 <= num_max_contacts request)%N ->
    is_collision (collide s1 tf1 s2 tf2 request) = true /\
    contacts (collide s1 tf1 s2 tf2 request) =
      [mkContactPoint Vector3d_Zero (center tf1) (radius s1 + radius s2)].
Proof.
  intros s1 s2 tf1 tf2 request Hr1 Hr2 Hc Hen Hmax.
  apply collide_contact; [exact Hen | exact Hmax |].
  apply sphereSphereIntersect_concentric; [lra | exact Hc].
Qed.

(** The distance query on separated spheres. *)
Lemma shapeDistance_separated (s1 s2 : Sphere) (tf1 tf2 : Transform3d R) :
  radius s1 + radius s2 < norm (vsub (center tf1) (center tf2)) ->
  success (shapeDistance s1 tf1 s2 tf2) = true /\
  dist (shapeDistance s1 tf1 s2 tf2) =
    norm (vsub (center tf1) (center tf2)) - (radius s1 + radius s2).
Proof.
  intros H. unfold shapeDistance. rewrite (Rltb_true H). split; reflexivity.
Qed.

(** The distance query on spheres that overlap or touch. *)
Lemma shapeDistance_overlap (s1 s2 : Sphere) (tf1 tf2 : Transform3d R) :
  norm (vsub (center tf1) (center tf2)) <= radius s1 + radius s2 ->
  shapeDistance s1 tf1 s2 tf2 = mkDistanceResult false (-1) None.
Proof.
  intros H. unfold shapeDistance. rewrite (Rltb_false H). reflexivity.
Qed.

(** The query fails exactly when [collide] reports a collision. *)
Lemma shapeDistance_fails_iff_collision (s1 s2 : Sphere) (tf1 tf2 : Transform3d R) :
  success (shapeDistance s1 tf1 s2 tf2) = false <->
  sphereSphereIntersect s1 tf1 s2 tf2 <> None.
Proof.
  rewrite sphereSphereIntersect_iff, (norm_vsub_sym (center tf2) (center tf1)).
  unfold shapeDistance.
  destruct (Rltb _ _) eqn:H; simpl.
  - apply Rltb_spec in H. split; [discriminate | lra].
  - split; [| reflexivity]. intros _.
    destruct (Rle_dec (norm (vsub (center tf1) (center tf2))) (radius s1 + radius s2))
      as [Hle | Hgt]; [exact Hle |].
    apply Rnot_le_lt in Hgt. apply Rltb_true in Hgt. congruence.
Qed.

(** On spheres a successful query never leaves a negative number, and a
    failed one always does. *)
Lemma shapeDistance_sign (s1 s2 : Sphere) (tf1 tf2 : Transform3d R) :
  (success (shapeDistance s1 tf1 s2 tf2) = true ->
   0 < dist (shapeDistance s1 tf1 s2 tf2)) /\
  (success (shapeDistance s1 tf1 s2 tf2) = false ->
   dist (shapeDistance s1 tf1 s2 tf2) < 0).
Proof.
  unfold shapeDistance.
  destruct (Rltb _ _) eqn:H; simpl.
  - apply Rltb_spec in H. split; [intros _; lra | discriminate].
  - split; [discriminate | intros _; lra].
Qed.

(** C5, as stated, fails. Sphere(20) at the identity and Sphere(10) moved by
    (29.9, 0, 0) overlap; max(0, |t1 - t2| - r1 - r2) is 0 there, while the
    distance query fails and leaves -1. *)
Lemma shapeDistance_overlapping_spheres_not_zero :
  let tf1 := Transform3d_Identity in
  let tf2 := Translation3d (mkVector3d 29.9 0 0) in
  let result := shapeDistance (mkSphere 20) tf1 (mkSphere 10) tf2 in
  Rmax 0 (norm (vsub (center tf1) (center tf2)) - 20 - 10) = 0 /\
  success result = false /\
  dist result = -1 /\
  dist result <> Rmax 0 (norm (vsub (center tf1) (center tf2)) - 20 - 10).
Proof.
  intros tf1 tf2 result.
  assert (Hn : norm (vsub (center tf1) (center tf2)) = 29.9).
  { apply norm_of_square; [lra |].
    unfold squaredNorm, vdot; cbn. ring. }
  assert (Hr : result = mkDistanceResult false (-1) None).
  { apply shapeDistance_overlap. rewrite Hn. cbn. lra. }
  rewrite Hn, Hr. simpl.
  rewrite Rmax_left by lra.
  repeat split; lra.
Qed.

(** C5, amended. For all radii and transforms, when the spheres are apart
    (|t1 - t2| > r1 + r2) the distance query succeeds and the distance is
    max(0, |t1 - t2| - r1 - r2), which is |t1 - t2| - r1 - r2; when they
    overlap or touch the query fails and the number it leaves is negative. *)
Theorem shapeDistance_spheres_exact :
  forall (s1 s2 : Sphere) (tf1 tf2 : Transform3d R),
    let sep := norm (vsub (center tf1) (center tf2)) - radius s1 - radius s2 in
    let result := shapeDistance s1 tf1 s2 tf2 in
    (0 < sep -> success result = true /\ dist result = Rmax 0 sep /\ dist result = sep) /\
    (sep <= 0 -> success result = false /\ dist result < 0).
Proof.
  intros s1 s2 tf1 tf2 sep result. subst sep result. split.
  - intros Hsep.
    destruct (@shapeDistance_separated s1 s2 tf1 tf2) as [Hs Hd]; [lra |].
    rewrite Hs, Hd. rewrite Rmax_right by lra.
    repeat split; lra.
  - intros Hsep.
    rewrite shapeDistance_overlap by lra. simpl. split; [reflexivity | lra].
Qed.
End SphereFacts.

(** ** Rigid transforms *)

Section RigidFacts.
Local Open Scope R_scope.

Lemma orthogonal_squaredNorm (m : Matrix3d R) (v : Vector3d R) :
  orthogonal m -> squaredNorm (mvmul m v) = squaredNorm v.
Proof.
  destruct m as [[a b c] [d e f] [g h i]], v as [x y z].
  unfold orthogonal, mmul, mtranspose, mcol, mcoeff, mrow, vdot, Matrix3d_Identity; cbn.
  intros H. injection H as H00 H01 H02 H10 H11 H12 H20 H21 H22.
  unfold squaredNorm, mvmul, vdot; cbn.
  replace ((a * x + b * y + c * z) * (a * x + b * y + c * z) +
           (d * x + e * y + f * z) * (d * x + e * y + f * z) +
           (g * x + h * y + i * z) * (g * x + h * y + i * z))
    with (x * x * (a * a + d * d + g * g) + y * y * (b * b + e * e + h * h) +
          z * z * (c * c + f * f + i * i) +
          2 * x * y * (a * b + d * e + g * h) +
          2 * x * z * (a * c + d * f + g * i) +
          2 * y * z * (b * c + e * f + h * i)) by ring.
  rewrite H00, H01, H02, H11, H12, H22. ring.
Qed.

Lemma orthogonal_norm (m : Matrix3d R) (v : Vector3d R) :
  orthogonal m -> norm (mvmul m v) = norm v.
Proof.
  intros H. unfold norm. rewrite orthogonal_squaredNorm by exact H. reflexivity.
Qed.

Lemma mvmul_vsub (m : Matrix3d R) (a b : Vector3d R) :
  mvmul m (vsub a b) = vsub (mvmul m a) (mvmul m b).
Proof.
  destruct m as [[? ? ?] [? ? ?] [? ? ?]], a, b.
  apply vec_ext; cbn; ring.
Qed.

Lemma mvmul_vadd (m : Matrix3d R) (a b : Vector3d R) :
  mvmul m (vadd a b) = vadd (mvmul m a) (mvmul m b).
Proof.
  destruct m as [[? ? ?] [? ? ?] [? ? ?]], a, b.
  apply vec_ext; cbn; ring.
Qed.

Lemma mvmul_vscale (m : Matrix3d R) (a : Vector3d R) (k : R) :
  mvmul m (vscale a k) = vscale (mvmul m a) k.
Proof.
  destruct m as [[? ? ?] [? ? ?] [? ? ?]], a.
  apply vec_ext; cbn; ring.
Qed.

Lemma mvmul_vdiv (m : Matrix3d R) (a : Vector3d R) (k : R) :
  mvmul m (vdiv a k) = vdiv (mvmul m a) k.
Proof.
  destruct m as [[? ? ?] [? ? ?] [? ? ?]], a.
  apply vec_ext; cbn; unfold Rdiv; ring.
Qed.

Lemma mvmul_zero (m : Matrix3d R) : mvmul m Vector3d_Zero = Vector3d_Zero.
Proof.
  destruct m as [[? ? ?] [? ? ?] [? ? ?]].
  apply vec_ext; cbn; ring.
Qed.

Lemma mvmul_Identity (v : Vector3d R) : mvmul Matrix3d_Identity v = v.
Proof. destruct v. apply vec_ext; cbn; ring. Qed.

Lemma transform_Identity (v : Vector3d R) : transform Transform3d_Identity v = v.
Proof. destruct v. apply vec_ext; cbn; ring. Qed.

Lemma orthogonal_Identity : orthogonal (@Matrix3d_Identity R _).
Proof.
  unfold orthogonal, mmul, mtranspose, mcol, mcoeff, mrow, vdot, Matrix3d_Identity; cbn.
  repeat f_equal; ring.
Qed.

(** Moving both centers by a transform moves their difference by its linear
    part. *)
Lemma center_compose (T tf : Transform3d R) :
  Narrowphase.center (compose T tf) = transform T (Narrowphase.center tf).
Proof. reflexivity. Qed.

Lemma transform_vsub (T : Transform3d R) (a b : Vector3d R) :
  vsub (transform T a) (transform T b) = mvmul (linear T) (vsub a b).
Proof.
  destruct T as [[[? ? ?] [? ? ?] [? ? ?]] [? ? ?]], a, b.
  apply vec_ext; cbn; ring.
Qed.
End RigidFacts.

(** ** Spheres under operand swap and under rigid motion *)

Section SphereSymmetries.
Import Narrowphase.
Local Open Scope R_scope.

Lemma sphereSphereIntersect_swap (s1 s2 : Sphere) (tf1 tf2 : Transform3d R) :
  0 <= radius s1 -> 0 <= radius s2 ->
  sphereSphereIntersect s2 tf2 s1 tf1 =
  option_map flip_contact (sphereSphereIntersect s1 tf1 s2 tf2).
Proof.
  intros Hr1 Hr2. unfold sphereSphereIntersect.
  rewrite (norm_vsub_sym (center tf1) (center tf2)).
  rewrite (Rplus_comm (radius s2) (radius s1)).
  set (len := norm (vsub (center tf2) (center tf1))).
  destruct (Rleb len (radius s1 + radius s2)) eqn:Hle; [| reflexivity].
  apply Rleb_spec in Hle. simpl. unfold flip_contact; simpl.
  f_equal. f_equal.
  - destruct (Rltb 0 len).
    + destruct (center tf1), (center tf2).
      apply vec_ext; cbn; unfold Rdiv; ring.
    + apply vec_ext; cbn; ring.
  - destruct (Req_dec_T (radius s1 + radius s2) 0) as [Hz | Hnz].
    + assert (Hlen : len = 0) by (pose proof (norm_nonneg (vsub (center tf2) (center tf1))); subst len; lra).
      apply norm_zero_iff in Hlen.
      destruct (center tf1) as [x1 y1 z1], (center tf2) as [x2 y2 z2].
      injection Hlen as Hx Hy Hz'. cbn in Hx, Hy, Hz'.
      apply vec_ext; cbn; nra.
    + destruct (center tf1), (center tf2).
      apply vec_ext; cbn; field; exact Hnz.
Qed.

Lemma shapeDistance_swap (s1 s2 : Sphere) (tf1 tf2 : Transform3d R) :
  shapeDistance s2 tf2 s1 tf1 = flip_distance (shapeDistance s1 tf1 s2 tf2).
Proof.
  unfold shapeDistance.
  rewrite (norm_vsub_sym (center tf2) (center tf1)).
  rewrite (Rplus_comm (radius s2) (radius s1)).
  set (len := norm (vsub (center tf1) (center tf2))).
  destruct (Rltb (radius s1 + radius s2) len); [| reflexivity].
  unfold flip_distance; simpl. f_equal. f_equal.
  destruct (center tf1), (center tf2).
  f_equal; apply vec_ext; cbn; ring.
Qed.

Lemma sphereSphereIntersect_rigid (T : Transform3d R)
      (s1 s2 : Sphere) (tf1 tf2 : Transform3d R) :
  orthogonal (linear T) ->
  sphereSphereIntersect s1 (compose T tf1) s2 (compose T tf2) =
  option_map (move_contact T) (sphereSphereIntersect s1 tf1 s2 tf2).
Proof.
  intros HT. unfold sphereSphereIntersect.
  rewrite !center_compose, transform_vsub, orthogonal_norm by exact HT.
  set (diff := vsub (center tf2) (center tf1)).
  destruct (Rleb (norm diff) (radius s1 + radius s2)); [| reflexivity].
  simpl. unfold move_contact; simpl. f_equal. f_equal.
  - destruct (Rltb 0 (norm diff)).
    + symmetry. apply mvmul_vdiv.
    + symmetry. apply mvmul_zero.
  - unfold transform. rewrite mvmul_vadd, mvmul_vscale.
    destruct (mvmul (linear T) (center tf1)), (mvmul (linear T) diff), (translation T).
    apply vec_ext; cbn; ring.
Qed.

Lemma shapeDistance_rigid (T : Transform3d R)
      (s1 s2 : Sphere) (tf1 tf2 : Transform3d R) :
  orthogonal (linear T) ->
  success (shapeDistance s1 (compose T tf1) s2 (compose T tf2)) =
    success (shapeDistance s1 tf1 s2 tf2) /\
  dist (shapeDistance s1 (compose T tf1) s2 (compose T tf2)) =
    dist (shapeDistance s1 tf1 s2 tf2).
Proof.
  intros HT. unfold shapeDistance.
  rewrite !center_compose, transform_vsub, orthogonal_norm by exact HT.
  destruct (Rltb _ _); split; reflexivity.
Qed.
End SphereSymmetries.

(** ** The sphere tests *)

Section SphereTests.
Import Narrowphase GeometricShapesTest.
Local Open Scope R_scope.

Lemma isApprox_refl (a : Vector3d R) (tol : R) : isApprox a a tol = true.
Proof.
  unfold isApprox. apply Rleb_true.
  rewrite vsub_self.
  replace (squaredNorm Vector3d_Zero) with 0
    by (unfold squaredNorm, vdot; cbn; ring).
  rewrite Rmin_left by lra.
  pose proof (squaredNorm_nonneg a). nra.
Qed.

Lemma checkContactPoints_refl (c : ContactPoint) (p d n o : bool) (tol : R) :
  0 < tol -> checkContactPoints c c p d n o tol = true.
Proof.
  intros Htol. unfold checkContactPoints.
  rewrite !isApprox_refl. simpl.
  rewrite andb_false_r.
  replace (penetration_depth c - penetration_depth c) with 0 by ring.
  rewrite Rabs_R0, (Rltb_true Htol). simpl.
  rewrite andb_false_r. destruct n; reflexivity.
Qed.

Lemma inspectContactPoints_single (c : ContactPoint) (p d n o : bool) (tol : R) :
  0 < tol -> inspectContactPoints [c] [c] p d n o tol = true.
Proof.
  intros Htol. unfold inspectContactPoints. simpl.
  rewrite (checkContactPoints_refl c p d n o Htol). reflexivity.
Qed.

(** The test passes on a colliding pair when it expects the contact that the
    routine computes. *)
Lemma testShapeIntersection_hit
      (request0 : CollisionRequest) (s1 s2 : Sphere) (tf1 tf2 : Transform3d R)
      (solver_type : GJKSolverType) (c : ContactPoint) (p d n o : bool) (tol : R) :
  0 < tol ->
  sphereSphereIntersect s1 tf1 s2 tf2 = Some c ->
  testShapeIntersection request0 s1 tf1 s2 tf2 solver_type true [c] p d n o tol = true.
Proof.
  intros Htol Hc.
  unfold testShapeIntersection, shapeIntersect, collide, getContactPointsFromResult.
  rewrite Hc. simpl.
  destruct c as [cn cp cd]. simpl.
  rewrite (inspectContactPoints_single _ p d n o Htol). reflexivity.
Qed.

(** The test passes on a separated pair when it expects no collision. *)
Lemma testShapeIntersection_miss
      (request0 : CollisionRequest) (s1 s2 : Sphere) (tf1 tf2 : Transform3d R)
      (solver_type : GJKSolverType) (cs : list ContactPoint) (p d n o : bool) (tol : R) :
  sphereSphereIntersect s1 tf1 s2 tf2 = None ->
  testShapeIntersection request0 s1 tf1 s2 tf2 solver_type false cs p d n o tol = true.
Proof.
  intros Hc.
  unfold testShapeIntersection, shapeIntersect, collide.
  rewrite Hc. reflexivity.
Qed.

Lemma sphereSphereIntersect_far (s1 s2 : Sphere) (tf1 tf2 : Transform3d R) (len : R) :
  norm (vsub (center tf2) (center tf1)) = len ->
  radius s1 + radius s2 < len ->
  sphereSphereIntersect s1 tf1 s2 tf2 = None.
Proof.
  intros Hlen Hfar. unfold sphereSphereIntersect.
  rewrite Hlen, (Rleb_false Hfar). reflexivity.
Qed.

Lemma compose_Identity_r (T : Transform3d R) : compose T Transform3d_Identity = T.
Proof.
  destruct T as [[[a b c] [d e f] [g h i]] [x y z]].
  unfold compose, transform, mmul, mvmul, vadd, vdot, mcol, mcoeff; cbn.
  f_equal.
  - f_equal; apply vec_ext; cbn; ring.
  - apply vec_ext; cbn; ring.
Qed.

(** Both spheres carried by a rigid [T]: the first at [T], the second at
    [T * tf2]. *)
Lemma sphereSphereIntersect_carried (T : Transform3d R)
      (s1 s2 : Sphere) (tf2 : Transform3d R) :
  orthogonal (linear T) ->
  sphereSphereIntersect s1 T s2 (compose T tf2) =
  option_map (move_contact T) (sphereSphereIntersect s1 Transform3d_Identity s2 tf2).
Proof.
  intros HT.
  rewrite <- (@sphereSphereIntersect_rigid T s1 s2 Transform3d_Identity tf2 HT).
  rewrite compose_Identity_r. reflexivity.
Qed.

Lemma sphereSphereIntersect_carried_both (T : Transform3d R) (s1 s2 : Sphere) :
  orthogonal (linear T) ->
  sphereSphereIntersect s1 T s2 T =
  option_map (move_contact T)
             (sphereSphereIntersect s1 Transform3d_Identity s2 Transform3d_Identity).
Proof.
  intros HT.
  rewrite <- (@sphereSphereIntersect_rigid T s1 s2 Transform3d_Identity Transform3d_Identity HT).
  rewrite compose_Identity_r. reflexivity.
Qed.
End SphereTests.

Section SphereTestRuns.
Import Narrowphase GeometricShapesTest.
Local Open Scope R_scope.

(** Settles [sphereSphereIntersect .. = Some c] for centers [len] apart on a
    coordinate axis. *)
Ltac sphere_hit len :=
  rewrite (@sphereSphereIntersect_apart _ _ _ _ len);
  [ f_equal; f_equal;
    [ apply vec_ext; cbn; lra | apply vec_ext; cbn; lra | cbn; lra ]
  | apply norm_of_square; [ lra | unfold squaredNorm, vdot; simpl; lra ]
  | lra
  | cbn; lra ].

(** Settles [sphereSphereIntersect .. = None] likewise. *)
Ltac sphere_miss len :=
  apply (@sphereSphereIntersect_far _ _ _ _ len);
  [ apply norm_of_square; [ lra | unfold squaredNorm, vdot; simpl; lra ]
  | cbn; lra ].

Local Abbreviation s20 := (mkSphere 20).
Local Abbreviation s10 := (mkSphere 10).
Local Abbreviation id := (@Transform3d_Identity R _).
Local Abbreviation at_ x := (Translation3d (mkVector3d x 0 0)).

Lemma spheres_at_40 : sphereSphereIntersect s20 id s10 (at_ 40) = None.
Proof. sphere_miss 40. Qed.

Lemma spheres_at_30_01 : sphereSphereIntersect s20 id s10 (at_ 30.01) = None.
Proof. sphere_miss 30.01. Qed.

Lemma spheres_at_minus_30_01 : sphereSphereIntersect s20 id s10 (at_ (-30.01)) = None.
Proof. sphere_miss 30.01. Qed.

Lemma spheres_at_30 :
  sphereSphereIntersect s20 id s10 (at_ 30) =
  Some (mkContactPoint (mkVector3d 1 0 0) (mkVector3d 20 0 0) 0.0).
Proof. sphere_hit 30. Qed.

Lemma spheres_at_29_9 :
  sphereSphereIntersect s20 id s10 (at_ 29.9) =
  Some (mkContactPoint (mkVector3d 1 0 0)
                       (mkVector3d (20.0 - 0.1 * 20.0 / (20.0 + 10.0)) 0 0) 0.1).
Proof. sphere_hit 29.9. Qed.

Lemma spheres_at_minus_29_9 :
  sphereSphereIntersect s20 id s10 (at_ (-29.9)) =
  Some (mkContactPoint (mkVector3d (-1) 0 0)
                       (mkVector3d (-20.0 + 0.1 * 20.0 / (20.0 + 10.0)) 0 0) 0.1).
Proof. sphere_hit 29.9. Qed.

Lemma spheres_at_minus_30 :
  sphereSphereIntersect s20 id s10 (at_ (-30.0)) =
  Some (mkContactPoint (mkVector3d (-1) 0 0) (mkVector3d (-20) 0 0) 0.0).
Proof. sphere_hit 30. Qed.

Lemma spheres_concentric :
  sphereSphereIntersect s20 id s10 id =
  Some (mkContactPoint Vector3d_Zero Vector3d_Zero (20.0 + 10.0)).
Proof.
  rewrite sphereSphereIntersect_concentric; [| cbn; lra | reflexivity].
  f_equal. f_equal. cbn. lra.
Qed.

(** The sphere-sphere routine passes every expectation of
    [shapeIntersection_spheresphere] and [shapeIntersectionGJK_spheresphere],
    whichever rigid transform the test draws. *)
Theorem shapeIntersection_spheresphere_passes
        (request0 : CollisionRequest) (solver_type : GJKSolverType)
        (transform_ : Transform3d R) :
  orthogonal (linear transform_) ->
  shapeIntersection_spheresphere request0 solver_type transform_ = true.
Proof.
  intros HT.
  assert (Htol : 0 < 1e-9) by lra.
  unfold shapeIntersection_spheresphere, testShapeIntersection_default.
  repeat (apply andb_true_intro; split);
    try (apply testShapeIntersection_miss);
    try (apply testShapeIntersection_hit; [exact Htol |]);
    try rewrite (@sphereSphereIntersect_carried transform_ _ _ _ HT);
    try rewrite (@sphereSphereIntersect_carried_both transform_ _ _ HT).
  - apply spheres_at_40.
  - rewrite spheres_at_40. reflexivity.
  - apply spheres_at_30.
  - apply spheres_at_30_01.
  - rewrite spheres_at_30_01. reflexivity.
  - apply spheres_at_29_9.
  - rewrite spheres_at_29_9. reflexivity.
  - apply spheres_concentric.
  - rewrite spheres_concentric.
    simpl. unfold move_contact. simpl. rewrite mvmul_zero. reflexivity.
  - apply spheres_at_minus_29_9.
  - rewrite spheres_at_minus_29_9. reflexivity.
  - apply spheres_at_minus_30.
  - apply spheres_at_minus_30_01.
  - rewrite spheres_at_minus_30_01. reflexivity.
Qed.
End SphereTestRuns.

Section SphereDistanceTestRuns.
Import Narrowphase GeometricShapesTest.
Local Open Scope R_scope.

Lemma expect_distance_ok (s1 s2 : Sphere) (tf1 tf2 : Transform3d R) (len expected tol : R) :
  norm (vsub (center tf1) (center tf2)) = len ->
  radius s1 + radius s2 < len ->
  len - (radius s1 + radius s2) = expected ->
  0 < tol ->
  expect_distance s1 tf1 s2 tf2 expected tol = true.
Proof.
  intros Hlen Hfar Hexp Htol. unfold expect_distance, shapeDistance.
  rewrite Hlen, (Rltb_true Hfar). simpl.
  rewrite Hexp. replace (expected - expected) with 0 by ring.
  rewrite Rabs_R0, (Rltb_true Htol). reflexivity.
Qed.

Lemma expect_overlap_ok (s1 s2 : Sphere) (tf1 tf2 : Transform3d R) (len : R) :
  norm (vsub (center tf1) (center tf2)) = len ->
  len <= radius s1 + radius s2 ->
  expect_overlap s1 tf1 s2 tf2 = true.
Proof.
  intros Hlen Hnear. unfold expect_overlap.
  rewrite shapeDistance_overlap by (rewrite Hlen; exact Hnear).
  simpl. rewrite Rltb_true by lra. reflexivity.
Qed.

Lemma norm_carried_l (T : Transform3d R) (v : Vector3d R) :
  orthogonal (linear T) ->
  norm (vsub (center T) (center (compose T (Translation3d v)))) = norm v.
Proof.
  intros HT. rewrite norm_vsub_sym.
  replace (vsub (center (compose T (Translation3d v))) (center T))
    with (mvmul (linear T) v).
  - apply orthogonal_norm, HT.
  - destruct T as [[[a b c] [d e f] [g h i]] [x y z]], v as [p q r].
    apply vec_ext; cbn; ring.
Qed.

Lemma norm_carried_r (T : Transform3d R) (v : Vector3d R) :
  orthogonal (linear T) ->
  norm (vsub (center (compose T (Translation3d v))) (center T)) = norm v.
Proof.
  intros HT. rewrite norm_vsub_sym. apply norm_carried_l, HT.
Qed.

Lemma norm_from_origin_l (v : Vector3d R) :
  norm (vsub (center Transform3d_Identity) (center (Translation3d v))) = norm v.
Proof.
  unfold norm. f_equal. destruct v. unfold squaredNorm, vdot; cbn. ring.
Qed.

Lemma norm_from_origin_r (v : Vector3d R) :
  norm (vsub (center (Translation3d v)) (center Transform3d_Identity)) = norm v.
Proof.
  unfold norm. f_equal. destruct v. unfold squaredNorm, vdot; cbn. ring.
Qed.

Lemma norm_on_x_axis (x : R) : 0 <= x -> norm (mkVector3d x 0 0) = x.
Proof.
  intros Hx. apply norm_of_square; [exact Hx |].
  unfold squaredNorm, vdot; cbn. ring.
Qed.

(** The sphere-sphere distance routine passes every expectation of the two
    sphere distance tests. *)
Lemma shapeDistance_spheresphere_body_passes
      (transform_ : Transform3d R) (far : Vector3d R) (tol1 tol2 tol3 tol4 : R) :
  orthogonal (linear transform_) ->
  norm far = 40 ->
  0 < tol1 -> 0 < tol2 -> 0 < tol3 -> 0 < tol4 ->
  shapeDistance_spheresphere_body transform_ far tol1 tol2 tol3 tol4 = true.
Proof.
  intros HT Hfar H1 H2 H3 H4.
  unfold shapeDistance_spheresphere_body.
  rewrite !andb_true_iff.
  repeat match goal with |- _ /\ _ => split end.
  - apply (@expect_distance_ok _ _ _ _ 40); [| simpl; lra | simpl; lra | lra].
    rewrite norm_from_origin_l. exact Hfar.
  - apply (@expect_distance_ok _ _ _ _ 30.1); [| simpl; lra | simpl; lra | lra].
    rewrite norm_from_origin_l. apply norm_on_x_axis. lra.
  - apply (@expect_overlap_ok _ _ _ _ 29.9); [| simpl; lra].
    rewrite norm_from_origin_l. apply norm_on_x_axis. lra.
  - apply (@expect_distance_ok _ _ _ _ 40); [| simpl; lra | simpl; lra | lra].
    rewrite norm_from_origin_r. apply norm_on_x_axis. lra.
  - apply (@expect_distance_ok _ _ _ _ 30.1); [| simpl; lra | simpl; lra | lra].
    rewrite norm_from_origin_r. apply norm_on_x_axis. lra.
  - apply (@expect_overlap_ok _ _ _ _ 29.9); [| simpl; lra].
    rewrite norm_from_origin_r. apply norm_on_x_axis. lra.
  - apply (@expect_distance_ok _ _ _ _ 40); [| simpl; lra | simpl; lra | lra].
    rewrite norm_carried_l by exact HT. apply norm_on_x_axis. lra.
  - apply (@expect_distance_ok _ _ _ _ 30.1); [| simpl; lra | simpl; lra | lra].
    rewrite norm_carried_l by exact HT. apply norm_on_x_axis. lra.
  - apply (@expect_overlap_ok _ _ _ _ 29.9); [| simpl; lra].
    rewrite norm_carried_l by exact HT. apply norm_on_x_axis. lra.
  - apply (@expect_distance_ok _ _ _ _ 40); [| simpl; lra | simpl; lra | lra].
    rewrite norm_carried_r by exact HT. apply norm_on_x_axis. lra.
  - apply (@expect_distance_ok _ _ _ _ 30.1); [| simpl; lra | simpl; lra | lra].
    rewrite norm_carried_r by exact HT. apply norm_on_x_axis. lra.
  - apply (@expect_overlap_ok _ _ _ _ 29.9); [| simpl; lra].
    rewrite norm_carried_r by exact HT. apply norm_on_x_axis. lra.
Qed.

Theorem shapeDistance_spheresphere_passes : shapeDistance_spheresphere = true.
Proof.
  unfold shapeDistance_spheresphere.
  apply shapeDistance_spheresphere_body_passes; [| | lra | lra | lra | lra].
  - apply orthogonal_Identity.
  - apply norm_of_square; [lra |]. unfold squaredNorm, vdot; cbn. ring.
Qed.

Theorem shapeDistanceGJK_spheresphere_passes (transform_ : Transform3d R) :
  orthogonal (linear transform_) ->
  shapeDistanceGJK_spheresphere transform_ = true.
Proof.
  intros HT.
  unfold shapeDistanceGJK_spheresphere.
  apply shapeDistance_spheresphere_body_passes; [exact HT | | lra | lra | lra | lra].
  apply norm_on_x_axis. lra.
Qed.
End SphereDistanceTestRuns.

(** ** The cube of [computeAABB] and the bounding sphere *)

Section BoundingSphere.
Context {EF : EigenOps R}.
Import CollisionObject.
Local Open Scope R_scope.

Lemma coeff_le_norm (w : Vector3d R) (i : Index3) : Rabs (vcoeff w i) <= norm w.
Proof.
  rewrite <- sqrt_Rsqr_abs. unfold norm. apply sqrt_le_1.
  - apply Rle_0_sqr.
  - apply squaredNorm_nonneg.
  - destruct w as [x y z]. unfold squaredNorm, vdot, Rsqr; cbn.
    destruct i; cbn; nra.
Qed.

Lemma transform_difference (T : Transform3d R) (p c : Vector3d R) (i : Index3) :
  vcoeff (transform T p) i =
  vcoeff (transform T c) i + vcoeff (mvmul (linear T) (vsub p c)) i.
Proof.
  destruct T as [[[? ? ?] [? ? ?] [? ? ?]] [? ? ?]], p, c.
  destruct i; cbn; ring.
Qed.

(** A cube of half-width [r] around the image of [c] holds the image of
    every point within [r] of [c], when the transform is rigid. *)
Lemma cube_around_encloses (T : Transform3d R) (c p : Vector3d R) (r : R) (a : AABB R) :
  orthogonal (linear T) ->
  cube_around (transform T c) r a ->
  norm (vsub p c) <= r ->
  inside a (transform T p).
Proof.
  intros HT Hcube Hp i.
  destruct (Hcube i) as [Hmin Hmax]. cbn in Hmin, Hmax.
  rewrite Hmin, Hmax, (transform_difference T p c i).
  pose proof (coeff_le_norm (mvmul (linear T) (vsub p c)) i) as Hw.
  rewrite (orthogonal_norm _ HT) in Hw.
  revert Hw. unfold Rabs. destruct (Rcase_abs _); lra.
Qed.

(** X12. When the transform of an object is rigid and its linear part does not
    pass [isIdentity()], the box that [computeAABB()] stores holds the image
    of the whole local bounding sphere. *)
Theorem computeAABB_encloses_bounding_sphere
        (h : Heap R) (o o' : object R) (g : CollisionGeometry.geometry R) (p : Vector3d R) :
  deref h (cgeom o) = Some g ->
  isIdentity (linear (t o)) = false ->
  orthogonal (linear (t o)) ->
  computeAABB h o = Some o' ->
  norm (vsub p (CollisionGeometry.aabb_center g)) <= CollisionGeometry.aabb_radius g ->
  inside (getAABB o') (transform (t o) p).
Proof.
  intros Hg Hid HT Ho' Hp.
  unfold computeAABB in Ho'. rewrite Hg, Hid in Ho'. injection Ho' as <-.
  apply (@cube_around_encloses (t o) (CollisionGeometry.aabb_center g) p
                               (CollisionGeometry.aabb_radius g));
    [exact HT | apply center_delta_cube_around | exact Hp].
Qed.
End BoundingSphere.

(** ** The header on sample data *)

Section SampleRuns.
Import CollisionObject.
Local Open Scope Z_scope.

Example computeAABB_translation_only :
  option_map getAABB
    (computeAABB Sample.heap (setTranslation (mkVector3d 10 20 30) Sample.object)) =
  Some (mkAABB (mkVector3d 9 18 27) (mkVector3d 11 22 33)).
Proof. reflexivity. Qed.

Example computeAABB_quarter_turn :
  option_map getAABB
    (computeAABB Sample.heap
       (setTransform_RT Sample.quarter_turn (mkVector3d 10 20 30) Sample.object)) =
  Some (mkAABB (mkVector3d 6 16 26) (mkVector3d 14 24 34)).
Proof. reflexivity. Qed.

Example computeAABB_without_geometry : computeAABB Sample.heap Sample.orphan = None.
Proof. reflexivity. Qed.

(** After [setTranslation] the box is still the one at the origin; only
    [computeAABB()] brings it to where the object is. *)
Example getAABB_stale_after_setTranslation :
  let moved := setTranslation (mkVector3d 10 20 30) Sample.object in
  getAABB moved = mkAABB (mkVector3d (-1) (-2) (-3)) (mkVector3d 1 2 3) /\
  option_map getAABB (computeAABB Sample.heap moved) <> Some (getAABB moved).
Proof. split; [reflexivity | discriminate]. Qed.

Example setQuatRotation_half_turn :
  getRotation (setQuatRotation (mkQuaternion3d 0 0 0 1) Sample.object) =
  comma_init (-1) 0 0 0 (-1) 0 0 0 1.
Proof. reflexivity. Qed.

Example computeMomentofInertiaRelatedToCOM_sample :
  CollisionGeometry.computeMomentofInertiaRelatedToCOM Sample.geom =
  comma_init (-16) 4 6 4 0 12 6 12 20.
Proof. reflexivity. Qed.

(** [computeAABB_world_aabb] at the sample object moved by (10, 20, 30). *)
Lemma computeAABB_world_aabb_witness :
  let o := setTranslation (mkVector3d 10 20 30) Sample.object in
  deref Sample.heap (cgeom o) = Some Sample.geom /\
  exists o' : object Z,
    computeAABB Sample.heap o = Some o' /\
    o' = with_aabb o (getAABB o') /\
    (isIdentity (linear (t o)) = true ->
     getAABB o' = translate (CollisionGeometry.aabb_local Sample.geom) (getTranslation o) /\
     translated_box (CollisionGeometry.aabb_local Sample.geom) (getTranslation o) (getAABB o')) /\
    (isIdentity (linear (t o)) = false ->
     cube_around (transform (t o) (CollisionGeometry.aabb_center Sample.geom))
                 (CollisionGeometry.aabb_radius Sample.geom) (getAABB o')).
Proof.
  intros o. split.
  - reflexivity.
  - apply (computeAABB_world_aabb Sample.heap o). reflexivity.
Defined.
End SampleRuns.

(** ** The sphere theorems on sample data *)

Section SphereWitnesses.
Import Narrowphase.
Local Open Scope R_scope.

(** [collide_sphere20_sphere10_at_29_9] at the sample request. *)
Lemma collide_sphere20_sphere10_at_29_9_witness :
  enable_contact Sample.request = true /\
  (1 <= num_max_contacts Sample.request)%N /\
  is_collision
    (collide (mkSphere 20) Transform3d_Identity
             (mkSphere 10) (Translation3d (mkVector3d 29.9 0 0)) Sample.request) = true /\
  contacts
    (collide (mkSphere 20) Transform3d_Identity
             (mkSphere 10) (Translation3d (mkVector3d 29.9 0 0)) Sample.request) =
    [mkContactPoint (mkVector3d 1 0 0)
                    (mkVector3d (20 - 0.1 * 20 / (20 + 10)) 0 0) 0.1].
Proof.
  split; [reflexivity |]. split; [simpl; lia |].
  apply (collide_sphere20_sphere10_at_29_9 Sample.request).
  - reflexivity.
  - simpl; lia.
Defined.

(** [collide_concentric_spheres] at Sphere(20) and Sphere(10), both at the
    identity. *)
Lemma collide_concentric_spheres_witness :
  0 <= radius (mkSphere 20) /\ 0 <= radius (mkSphere 10) /\
  center (@Transform3d_Identity R _) = center (@Transform3d_Identity R _) /\
  is_collision
    (collide (mkSphere 20) Transform3d_Identity (mkSphere 10) Transform3d_Identity
             Sample.request) = true /\
  contacts
    (collide (mkSphere 20) Transform3d_Identity (mkSphere 10) Transform3d_Identity
             Sample.request) =
    [mkContactPoint Vector3d_Zero (center Transform3d_Identity) (20 + 10)].
Proof.
  split; [simpl; lra |]. split; [simpl; lra |]. split; [reflexivity |].
  apply (collide_concentric_spheres (mkSphere 20) (mkSphere 10)
           Transform3d_Identity Transform3d_Identity Sample.request).
  - simpl; lra.
  - simpl; lra.
  - reflexivity.
  - reflexivity.
  - simpl; lia.
Defined.

(** [shapeDistance_spheres_exact] at Sphere(20) at the identity and
    Sphere(10) moved by (40, 0, 0), which are 10 apart. *)
Lemma shapeDistance_spheres_exact_witness :
  let tf1 := @Transform3d_Identity R _ in
  let tf2 := Translation3d (mkVector3d 40 0 0) in
  0 < norm (vsub (center tf1) (center tf2)) - 20 - 10 /\
  success (shapeDistance (mkSphere 20) tf1 (mkSphere 10) tf2) = true /\
  dist (shapeDistance (mkSphere 20) tf1 (mkSphere 10) tf2) = 10.
Proof.
  intros tf1 tf2.
  assert (Hn : norm (vsub (center tf1) (center tf2)) = 40).
  { apply norm_of_square; [lra |]. unfold squaredNorm, vdot; cbn. ring. }
  assert (Hsep : 0 < norm (vsub (center tf1) (center tf2)) - 20 - 10)
    by (rewrite Hn; lra).
  split; [exact Hsep |].
  destruct (shapeDistance_spheres_exact (mkSphere 20) (mkSphere 10) tf1 tf2)
    as [Hfar _].
  destruct (Hfar Hsep) as (Hs & _ & Hd).
  split; [exact Hs |].
  rewrite Hd. cbn [radius]. rewrite Hn. lra.
Defined.
End SphereWitnesses.

(** ** Warm start on spheres *)

Section SphereWarmStart.
Import Narrowphase.

Lemma collide_run_any_request (s1 s2 : Sphere) (tfs : list (Transform3d R * Transform3d R)) :
  forall (feed feed' : bool) (request request' : CollisionRequest),
    collide_run s1 s2 feed request tfs = collide_run s1 s2 feed' request' tfs.
Proof.
  induction tfs as [| [tf1 tf2] tfs IH]; intros feed feed' request request'.
  - reflexivity.
  - simpl. rewrite !collide_is_collision. f_equal. apply IH.
Qed.

(** On spheres a run that feeds every call the direction of the previous one
    yields the booleans of the run that has the warm start switched off. *)
Lemma collide_run_warm_start (s1 s2 : Sphere) (request : CollisionRequest)
      (tfs : list (Transform3d R * Transform3d R)) :
  collide_run s1 s2 true (with_enable_cached_gjk_guess request true) tfs =
  collide_run s1 s2 false (with_enable_cached_gjk_guess request false) tfs.
Proof. apply collide_run_any_request. Qed.
End SphereWarmStart.

(** ** Occupancy *)

Section OccupancyFacts.
Context {F : Type} {SF : Scalar F} {OF : ScalarOrder F}.
Import CollisionGeometry Occupancy.

Hypothesis s_leb_trans :
  forall a b c : F, s_leb a b = true -> s_leb b c = true -> s_leb a c = true.

(** X1. When the occupied threshold is not at or below the free threshold, a
    geometry is in exactly one of the three states occupied, free and
    uncertain; in particular it is never both occupied and free. *)
Theorem occupancy_states_exclusive (g : geometry F) :
  s_leb (threshold_occupied g) (threshold_free g) = false ->
  (isOccupied g = true /\ isFree g = false /\ isUncertain g = false) \/
  (isOccupied g = false /\ isFree g = true /\ isUncertain g = false) \/
  (isOccupied g = false /\ isFree g = false /\ isUncertain g = true).
Proof.
  intros Hth. unfold isUncertain.
  destruct (isOccupied g) eqn:Hocc, (isFree g) eqn:Hfree; simpl; auto.
  unfold isOccupied in Hocc. unfold isFree in Hfree.
  rewrite (s_leb_trans _ _ _ Hocc Hfree) in Hth. discriminate.
Qed.
End OccupancyFacts.

Section OccupancyDefaults.
Context {F : Type} {SF : Scalar F} {OF : ScalarOrder F}.
Import CollisionGeometry Occupancy.

(** X2. Where 1 <= 1 holds and 1 <= 0 does not, a geometry that comes out of
    the constructor is occupied, not free and not uncertain, whatever the
    memory held. *)
Theorem constructed_geometry_is_occupied (raw : geometry F) :
  s_leb (@s_one F _) s_one = true ->
  s_leb (@s_one F _) s_zero = false ->
  isOccupied (CollisionGeometry_ctor raw) = true /\
  isFree (CollisionGeometry_ctor raw) = false /\
  isUncertain (CollisionGeometry_ctor raw) = false.
Proof.
  intros H11 H10. unfold isUncertain, isOccupied, isFree. simpl.
  rewrite H11, H10. auto.
Qed.
End OccupancyDefaults.

(** ** Cost density through shared geometries *)

Section ObjectCostFacts.
Context {F : Type} {SF : Scalar F} {OF : ScalarOrder F} {EF : EigenOps F}.
Import CollisionObject ObjectCost.

Lemma heap_store_same (h : Heap F) (l : loc) (g : CollisionGeometry.geometry F) :
  heap_store h l g l = Some g.
Proof. unfold heap_store. rewrite Nat.eqb_refl. reflexivity. Qed.

Lemma heap_store_other (h : Heap F) (l l' : loc) (g : CollisionGeometry.geometry F) :
  l' <> l -> heap_store h l g l' = h l'.
Proof.
  intros Hne. unfold heap_store.
  destruct (Nat.eqb_spec l' l); [contradiction | reflexivity].
Qed.

Lemma setCostDensity_inv (c : F) (h h' : Heap F) (o : object F) :
  setCostDensity c h o = Some h' ->
  exists (l : loc) (g : CollisionGeometry.geometry F),
    cgeom o = Some l /\ h l = Some g /\
    h' = heap_store h l (Occupancy.with_cost_density g c).
Proof.
  unfold setCostDensity. intros H.
  destruct (cgeom o) as [l |]; [| discriminate].
  destruct (h l) as [g |] eqn:Hg; [| discriminate].
  injection H as <-. exists l, g. auto.
Qed.

(** X3. [setCostDensity] writes into the geometry: afterwards every object
    that holds the same geometry pointer reads the new cost density, and
    every object that holds another pointer reads what it read before. *)
Theorem setCostDensity_shared (c : F) (h h' : Heap F) (o : object F) :
  setCostDensity c h o = Some h' ->
  forall o2 : object F,
    (cgeom o2 = cgeom o -> getCostDensity h' o2 = Some c) /\
    (cgeom o2 <> cgeom o -> getCostDensity h' o2 = getCostDensity h o2).
Proof.
  intros H o2.
  destruct (setCostDensity_inv _ _ _ H) as (l & g & Hl & Hg & ->).
  unfold getCostDensity. split.
  - intros Heq. rewrite Heq, Hl. simpl. rewrite heap_store_same. reflexivity.
  - intros Hne. destruct (cgeom o2) as [l2 |]; [| reflexivity].
    simpl. rewrite heap_store_other; [reflexivity |].
    intros ->. apply Hne. symmetry. exact Hl.
Qed.

(** X4. [setCostDensity] fails exactly on an object whose geometry pointer
    is null or dangling, and when it succeeds it changes nothing that
    [computeAABB], [getObjectType] or [getNodeType] read: they answer for
    every object as before, and a fresh world box stays fresh. *)
Theorem setCostDensity_frame (c : F) (h : Heap F) (o : object F) :
  (setCostDensity c h o = None <-> deref h (cgeom o) = None) /\
  forall h' : Heap F,
    setCostDensity c h o = Some h' ->
    forall o2 : object F,
      computeAABB h' o2 = computeAABB h o2 /\
      getObjectType h' o2 = getObjectType h o2 /\
      getNodeType h' o2 = getNodeType h o2 /\
      (fresh h o2 -> fresh h' o2).
Proof.
  split.
  - unfold setCostDensity, deref.
    destruct (cgeom o) as [l |]; [| tauto].
    destruct (h l); split; intros; congruence.
  - intros h' H o2.
    destruct (setCostDensity_inv _ _ _ H) as (l & g & Hl & Hg & ->).
    assert (Hc : computeAABB (heap_store h l (Occupancy.with_cost_density g c)) o2 =
                 computeAABB h o2).
    { unfold computeAABB, deref. destruct (cgeom o2) as [l2 |]; [| reflexivity].
      destruct (Nat.eq_dec l2 l) as [-> | Hne].
      - rewrite heap_store_same, Hg. reflexivity.
      - rewrite heap_store_other by exact Hne. reflexivity. }
    split; [exact Hc |]. split; [| split].
    + unfold getObjectType, deref. destruct (cgeom o2) as [l2 |]; [| reflexivity].
      destruct (Nat.eq_dec l2 l) as [-> | Hne].
      * rewrite heap_store_same, Hg. reflexivity.
      * rewrite heap_store_other by exact Hne. reflexivity.
    + unfold getNodeType, deref. destruct (cgeom o2) as [l2 |]; [| reflexivity].
      destruct (Nat.eq_dec l2 l) as [-> | Hne].
      * rewrite heap_store_same, Hg. reflexivity.
      * rewrite heap_store_other by exact Hne. reflexivity.
    + unfold fresh. rewrite Hc. trivial.
Qed.

(** X5. After [setCostDensity(c)] through one object, every object that holds
    the same geometry pointer is occupied exactly when [c] reaches the
    geometry's occupied threshold, free exactly when [c] is at or below
    its free threshold, and uncertain otherwise. *)
Theorem setCostDensity_occupancy
        (c : F) (h h' : Heap F) (o : object F) (g : CollisionGeometry.geometry F) :
  deref h (cgeom o) = Some g ->
  setCostDensity c h o = Some h' ->
  forall o2 : object F,
    cgeom o2 = cgeom o ->
    isOccupied h' o2 = Some (s_leb (CollisionGeometry.threshold_occupied g) c) /\
    isFree h' o2 = Some (s_leb c (CollisionGeometry.threshold_free g)) /\
    isUncertain h' o2 =
      Some (negb (s_leb (CollisionGeometry.threshold_occupied g) c) &&
            negb (s_leb c (CollisionGeometry.threshold_free g))).
Proof.
  intros Hg H o2 Heq.
  destruct (setCostDensity_inv _ _ _ H) as (l & g' & Hl & Hg' & ->).
  unfold deref in Hg. rewrite Hl, Hg' in Hg. injection Hg as ->.
  unfold isOccupied, isFree, isUncertain, deref.
  rewrite Heq, Hl, heap_store_same. repeat split.
Qed.
End ObjectCostFacts.

(** ** Fresh world boxes *)

Section FreshFacts.
Context {F : Type} {SF : Scalar F} {EF : EigenOps F}.
Import CollisionObject.

Lemma computeAABB_with_aabb (h : Heap F) (o : object F) (a : AABB F) :
  computeAABB h (with_aabb o a) = computeAABB h o.
Proof. reflexivity. Qed.

Lemma computeAABB_ext (h h' : Heap F) (o : object F) :
  deref h (cgeom o) = deref h' (cgeom o) -> computeAABB h o = computeAABB h' o.
Proof. unfold computeAABB. intros ->. reflexivity. Qed.

Lemma computeAABB_result_fresh (h : Heap F) (o o' : object F) :
  computeAABB h o = Some o' -> fresh h o'.
Proof.
  intros H. pose proof H as H0. unfold computeAABB in H. unfold fresh.
  destruct (deref h (cgeom o)) as [g |]; [| discriminate].
  destruct (isIdentity (linear (t o))).
  - injection H as <-. rewrite computeAABB_with_aabb. exact H0.
  - injection H as <-. rewrite computeAABB_with_aabb. exact H0.
Qed.

(** X6. [computeAABB] is idempotent: the object it returns has a fresh world
    box, so any number of further calls changes nothing. *)
Theorem computeAABB_idempotent (h : Heap F) (o o' : object F) (n : nat) :
  computeAABB h o = Some o' ->
  Nat.iter n (fun r => match r with Some o1 => computeAABB h o1 | None => None end)
           (Some o') = Some o'.
Proof.
  intros H. pose proof (computeAABB_result_fresh _ _ H) as Hf.
  induction n as [| n IH]; [reflexivity |].
  simpl. rewrite IH. exact Hf.
Qed.

(** The user data of an object plays no part in its world box:
    [setUserData] keeps a fresh box fresh and is read back by
    [getUserData], and it leaves the transform and the pointers alone. *)
Theorem setUserData_keeps_fresh (h : Heap F) (o : object F) (data : void_ptr) :
  fresh h o ->
  fresh h (setUserData data o) /\
  getUserData (setUserData data o) = data /\
  getAABB (setUserData data o) = getAABB o /\
  getTransform (setUserData data o) = getTransform o /\
  cgeom (setUserData data o) = cgeom o.
Proof.
  intros Hf. repeat split.
  unfold fresh, computeAABB in *. simpl.
  destruct (deref h (cgeom o)) as [g |]; [| discriminate].
  destruct (isIdentity (linear (t o))); injection Hf as Hf;
    destruct o; simpl in *; injection Hf as Hf; rewrite Hf; reflexivity.
Qed.
End FreshFacts.

(** ** Constructors *)

Section ConstructFacts.
Context {F : Type} {SF : Scalar F} {EF : EigenOps F}.
Import CollisionObject Construct.

Variable computeLocalAABB : CollisionGeometry.geometry F -> CollisionGeometry.geometry F.
Variable AABB_default : AABB F.

Lemma finish_inv (h h' : Heap F) (o o' : object F) :
  finish computeLocalAABB h o = Some (h', o') ->
  exists (l : loc) (g : CollisionGeometry.geometry F),
    cgeom o = Some l /\ h l = Some g /\
    h' = heap_store h l (computeLocalAABB g) /\
    computeAABB h' o = Some o'.
Proof.
  unfold finish. intros H.
  destruct (deref h (cgeom o)) as [g |] eqn:Hg; [| discriminate].
  destruct (cgeom o) as [l |] eqn:Hl; [| discriminate].
  simpl in Hg.
  destruct (computeAABB (heap_store h l (computeLocalAABB g)) o) as [o1 |] eqn:Hc;
    [| discriminate].
  simpl in H. injection H as <- <-.
  exists l, g. auto.
Qed.

Lemma computeAABB_only_aabb (h : Heap F) (o o' : object F) :
  computeAABB h o = Some o' -> o' = with_aabb o (getAABB o').
Proof.
  unfold computeAABB. intros H.
  destruct (deref h (cgeom o)); [| discriminate].
  destruct (isIdentity (linear (t o))); injection H as <-; reflexivity.
Qed.

(** X7. An object that [CollisionObject(cgeom_, tf)] builds holds the given
    pointer twice, the given transform and a fresh world box; the geometry
    it points to has gone through [computeLocalAABB()], and no other
    geometry has changed. *)
Theorem CollisionObject_2_fresh
        (h h' : Heap F) (cgeom_ : shared_ptr) (tf : Transform3d F) (raw : void_ptr)
        (o : object F) :
  CollisionObject_2 computeLocalAABB AABB_default h cgeom_ tf raw = Some (h', o) ->
  fresh h' o /\
  cgeom o = cgeom_ /\ collisionGeometry o = cgeom_ /\
  getTransform o = tf /\ getUserData o = raw /\
  option_map computeLocalAABB (deref h cgeom_) = deref h' cgeom_ /\
  forall l : loc, Some l <> cgeom_ -> h' l = h l.
Proof.
  unfold CollisionObject_2. intros H.
  destruct (finish_inv _ _ H) as (l & g & Hl & Hg & -> & Hc).
  simpl in Hl. subst cgeom_.
  pose proof (computeAABB_only_aabb _ _ Hc) as Ho. rewrite Ho.
  split; [| repeat split].
  - rewrite <- Ho. apply (computeAABB_result_fresh _ _ Hc).
  - simpl. rewrite Hg, heap_store_same. reflexivity.
  - intros l' Hne. apply heap_store_other. congruence.
Qed.

(** X10. The three constructors agree where they overlap:
    [CollisionObject(cgeom_, R, T)] builds what [CollisionObject(cgeom_, tf)]
    builds from the transform with linear part [R] and translation [T], and
    [CollisionObject(cgeom_)] on a pointer that is not null builds what
    [CollisionObject(cgeom_, tf)] builds from the identity. *)
Theorem constructors_agree
        (h : Heap F) (cgeom_ : shared_ptr) (R : Matrix3d F) (T : Vector3d F) (raw : void_ptr) :
  CollisionObject_3 computeLocalAABB AABB_default h cgeom_ R T raw =
    CollisionObject_2 computeLocalAABB AABB_default h cgeom_ (mkTransform3d R T) raw /\
  (cgeom_ <> None ->
   CollisionObject_1 computeLocalAABB AABB_default h cgeom_ raw =
     CollisionObject_2 computeLocalAABB AABB_default h cgeom_ Transform3d_Identity raw).
Proof.
  split; [reflexivity |].
  intros Hnn. unfold CollisionObject_1, CollisionObject_2.
  destruct cgeom_; [reflexivity | contradiction].
Qed.

(** X9. On a null pointer only [CollisionObject(cgeom_)] is defined: it
    builds an object at the identity with the default box and leaves the
    heap alone, and [computeAABB], [getObjectType] and [getNodeType] have no
    meaning on that object; the other two constructors dereference the null
    pointer. *)
Theorem constructors_on_null
        (h : Heap F) (tf : Transform3d F) (R : Matrix3d F) (T : Vector3d F) (raw : void_ptr) :
  (exists o : object F,
     CollisionObject_1 computeLocalAABB AABB_default h None raw = Some (h, o) /\
     getTransform o = Transform3d_Identity /\ getAABB o = AABB_default /\
     computeAABB h o = None /\ getObjectType h o = None /\ getNodeType h o = None) /\
  CollisionObject_2 computeLocalAABB AABB_default h None tf raw = None /\
  CollisionObject_3 computeLocalAABB AABB_default h None R T raw = None.
Proof.
  split; [| split; reflexivity].
  eexists. split; [reflexivity |]. repeat split.
Qed.

Lemma last_cons_default (A : Type) (l : list A) (v d1 d2 : A) :
  last (v :: l) d1 = last (v :: l) d2.
Proof.
  revert v. induction l as [| w l IH]; intros v; [reflexivity |].
  change (last (w :: l) d1 = last (w :: l) d2). apply IH.
Qed.

(** X11. Translation-only objects get the tight box. Where [isIdentity()]
    accepts the identity matrix, an object put at the identity by
    [setIdentityTransform] and then moved by [setTranslation] calls only gets
    from [computeAABB] its local AABB translated by the last translation
    given. *)
Theorem translation_only_box
        (h : Heap F) (o : object F) (g : CollisionGeometry.geometry F)
        (Ts : list (Vector3d F)) :
  isIdentity (@Matrix3d_Identity F _) = true ->
  deref h (cgeom o) = Some g ->
  option_map getAABB
    (computeAABB h (fold_left (fun o' T => setTranslation T o') Ts (setIdentityTransform o))) =
  Some (translate (CollisionGeometry.aabb_local g) (last Ts Vector3d_Zero)).
Proof.
  intros HI Hg.
  assert (Hinv : forall (Ts' : list (Vector3d F)) (o1 : object F) (T0 : Vector3d F),
             cgeom o1 = cgeom o -> t o1 = mkTransform3d Matrix3d_Identity T0 ->
             option_map getAABB
               (computeAABB h (fold_left (fun o' T => setTranslation T o') Ts' o1)) =
             Some (translate (CollisionGeometry.aabb_local g) (last Ts' T0))).
  { induction Ts' as [| T1 Ts' IH]; intros o1 T0 Hc Ht.
    - simpl. unfold computeAABB. rewrite Hc, Hg, Ht. simpl. rewrite HI. reflexivity.
    - simpl fold_left. rewrite (IH (setTranslation T1 o1) T1).
      + f_equal. f_equal. destruct Ts' as [| T2 Ts'']; [reflexivity |].
        change (last (T1 :: T2 :: Ts'') T0) with (last (T2 :: Ts'') T0).
        apply last_cons_default.
      + exact Hc.
      + unfold setTranslation, set_translation. simpl. rewrite Ht. reflexivity. }
  apply Hinv; reflexivity.
Qed.

(** X8. Building an object over a geometry whose local AABB is computed
    already changes no geometry, so the world box of every other object,
    whether it shares the geometry or not, stays fresh. *)
Theorem CollisionObject_2_keeps_fresh
        (h h' : Heap F) (cgeom_ : shared_ptr) (tf : Transform3d F) (raw : void_ptr)
        (o : object F) :
  (forall g : CollisionGeometry.geometry F,
     deref h cgeom_ = Some g -> computeLocalAABB g = g) ->
  CollisionObject_2 computeLocalAABB AABB_default h cgeom_ tf raw = Some (h', o) ->
  (forall l : loc, h' l = h l) /\
  forall o1 : object F, fresh h o1 -> fresh h' o1.
Proof.
  unfold CollisionObject_2. intros Hdone H.
  destruct (finish_inv _ _ H) as (l & g & Hl & Hg & -> & _).
  simpl in Hl. subst cgeom_.
  rewrite (Hdone g Hg).
  assert (Hsame : forall l' : loc, heap_store h l g l' = h l').
  { intros l'. unfold heap_store. destruct (Nat.eqb_spec l' l) as [-> |]; congruence. }
  split; [exact Hsame |].
  intros o1 Hf. unfold fresh in *.
  transitivity (computeAABB h o1); [| exact Hf].
  apply computeAABB_ext. unfold deref. destruct (cgeom o1); [apply Hsame | reflexivity].
Qed.
End ConstructFacts.

(** ** The header theorems on sample data *)

Section HeaderWitnesses.
Import CollisionObject.
Local Open Scope Z_scope.

Lemma occupancy_states_exclusive_witness :
  s_leb (CollisionGeometry.threshold_occupied Sample.geom)
        (CollisionGeometry.threshold_free Sample.geom) = false /\
  ((Occupancy.isOccupied Sample.geom = true /\ Occupancy.isFree Sample.geom = false /\
    Occupancy.isUncertain Sample.geom = false) \/
   (Occupancy.isOccupied Sample.geom = false /\ Occupancy.isFree Sample.geom = true /\
    Occupancy.isUncertain Sample.geom = false) \/
   (Occupancy.isOccupied Sample.geom = false /\ Occupancy.isFree Sample.geom = false /\
    Occupancy.isUncertain Sample.geom = true)).
Proof.
  split; [reflexivity |].
  apply occupancy_states_exclusive; [| reflexivity].
  intros a b c H1 H2. apply Z.leb_le. apply Z.leb_le in H1. apply Z.leb_le in H2.
  exact (Z.le_trans _ _ _ H1 H2).
Defined.

Lemma constructed_geometry_is_occupied_witness :
  s_leb (@s_one Z _) s_one = true /\
  s_leb (@s_one Z _) s_zero = false /\
  Occupancy.isOccupied (Occupancy.CollisionGeometry_ctor Sample.geom) = true /\
  Occupancy.isFree (Occupancy.CollisionGeometry_ctor Sample.geom) = false /\
  Occupancy.isUncertain (Occupancy.CollisionGeometry_ctor Sample.geom) = false.
Proof.
  split; [reflexivity |]. split; [reflexivity |].
  apply constructed_geometry_is_occupied; reflexivity.
Defined.

Lemma setCostDensity_shared_witness :
  ObjectCost.setCostDensity 5 Sample.heap Sample.object = Some SampleMore.heap5 /\
  forall o2 : object Z,
    (cgeom o2 = cgeom Sample.object ->
     ObjectCost.getCostDensity SampleMore.heap5 o2 = Some 5) /\
    (cgeom o2 <> cgeom Sample.object ->
     ObjectCost.getCostDensity SampleMore.heap5 o2 = ObjectCost.getCostDensity Sample.heap o2).
Proof.
  split; [reflexivity |].
  apply (setCostDensity_shared 5 Sample.heap Sample.object). reflexivity.
Defined.

Lemma setCostDensity_occupancy_witness :
  deref Sample.heap (cgeom Sample.object) = Some Sample.geom /\
  ObjectCost.setCostDensity 5 Sample.heap Sample.object = Some SampleMore.heap5 /\
  forall o2 : object Z,
    cgeom o2 = cgeom Sample.object ->
    ObjectCost.isOccupied SampleMore.heap5 o2 =
      Some (s_leb (CollisionGeometry.threshold_occupied Sample.geom) 5) /\
    ObjectCost.isFree SampleMore.heap5 o2 =
      Some (s_leb 5 (CollisionGeometry.threshold_free Sample.geom)) /\
    ObjectCost.isUncertain SampleMore.heap5 o2 =
      Some (negb (s_leb (CollisionGeometry.threshold_occupied Sample.geom) 5) &&
            negb (s_leb 5 (CollisionGeometry.threshold_free Sample.geom))).
Proof.
  split; [reflexivity |]. split; [reflexivity |].
  apply (setCostDensity_occupancy 5 Sample.heap Sample.object); reflexivity.
Defined.

Lemma computeAABB_idempotent_witness :
  computeAABB Sample.heap
    (setTransform_RT Sample.quarter_turn (mkVector3d 10 20 30) Sample.object) =
    Some SampleMore.turned_object /\
  Nat.iter 3 (fun r => match r with
                       | Some o1 => computeAABB Sample.heap o1
                       | None => None
                       end) (Some SampleMore.turned_object) =
    Some SampleMore.turned_object.
Proof.
  split; [reflexivity |].
  apply (computeAABB_idempotent Sample.heap
           (setTransform_RT Sample.quarter_turn (mkVector3d 10 20 30) Sample.object)).
  reflexivity.
Defined.

Lemma setUserData_keeps_fresh_witness :
  fresh Sample.heap Sample.object /\
  fresh Sample.heap (setUserData 9%nat Sample.object) /\
  getUserData (setUserData 9%nat Sample.object) = 9%nat /\
  getAABB (setUserData 9%nat Sample.object) = getAABB Sample.object /\
  getTransform (setUserData 9%nat Sample.object) = getTransform Sample.object /\
  cgeom (setUserData 9%nat Sample.object) = cgeom Sample.object.
Proof.
  split; [reflexivity |].
  apply setUserData_keeps_fresh. reflexivity.
Defined.

Lemma CollisionObject_2_fresh_witness :
  let h' := heap_store Sample.heap 7%nat (SampleMore.computeLocalAABB Sample.geom) in
  let o := (CollisionObject.mk (Some 7%nat) (Some 7%nat) SampleMore.turned
    (mkAABB (mkVector3d 6 16 26) (mkVector3d 14 24 34)) 9%nat) in
  Construct.CollisionObject_2 SampleMore.computeLocalAABB SampleMore.AABB_default
    Sample.heap (Some 7%nat) SampleMore.turned 9%nat = Some (h', o) /\
  fresh h' o /\
  cgeom o = Some 7%nat /\ collisionGeometry o = Some 7%nat /\
  getTransform o = SampleMore.turned /\ getUserData o = 9%nat /\
  option_map SampleMore.computeLocalAABB (deref Sample.heap (Some 7%nat)) =
    deref h' (Some 7%nat) /\
  forall l : loc, Some l <> Some 7%nat -> h' l = Sample.heap l.
Proof.
  intros h' o. split; [reflexivity |].
  apply (CollisionObject_2_fresh SampleMore.computeLocalAABB SampleMore.AABB_default
           Sample.heap (Some 7%nat) SampleMore.turned 9%nat).
  reflexivity.
Defined.

Lemma CollisionObject_2_keeps_fresh_witness :
  let h' := heap_store Sample.heap 7%nat (SampleMore.computeLocalAABB Sample.geom) in
  (forall g : CollisionGeometry.geometry Z,
     deref Sample.heap (Some 7%nat) = Some g -> SampleMore.computeLocalAABB g = g) /\
  Construct.CollisionObject_2 SampleMore.computeLocalAABB SampleMore.AABB_default
    Sample.heap (Some 7%nat) SampleMore.turned 9%nat = Some (h', (CollisionObject.mk (Some 7%nat) (Some 7%nat) SampleMore.turned
    (mkAABB (mkVector3d 6 16 26) (mkVector3d 14 24 34)) 9%nat)) /\
  (forall l : loc, h' l = Sample.heap l) /\
  forall o1 : object Z, fresh Sample.heap o1 -> fresh h' o1.
Proof.
  intros h'.
  assert (Hdone : forall g : CollisionGeometry.geometry Z,
             deref Sample.heap (Some 7%nat) = Some g -> SampleMore.computeLocalAABB g = g).
  { intros g Hg. injection Hg as <-. reflexivity. }
  split; [exact Hdone |]. split; [reflexivity |].
  refine (CollisionObject_2_keeps_fresh (h' := h')
            (o := CollisionObject.mk (Some 7%nat) (Some 7%nat) SampleMore.turned
                    (mkAABB (mkVector3d 6 16 26) (mkVector3d 14 24 34)) 9%nat)
            SampleMore.computeLocalAABB SampleMore.AABB_default
            Sample.heap (Some 7%nat) SampleMore.turned 9%nat Hdone _).
  reflexivity.
Defined.

Lemma translation_only_box_witness :
  isIdentity (@Matrix3d_Identity Z _) = true /\
  deref Sample.heap (cgeom Sample.object) = Some Sample.geom /\
  option_map getAABB
    (computeAABB Sample.heap
       (fold_left (fun o' T => setTranslation T o')
                  [mkVector3d 1 1 1; mkVector3d 10 20 30]
                  (setIdentityTransform SampleMore.turned_object))) =
  Some (translate (CollisionGeometry.aabb_local Sample.geom)
                  (last [mkVector3d 1 1 1; mkVector3d 10 20 30] Vector3d_Zero)).
Proof.
  split; [reflexivity |]. split; [reflexivity |].
  apply translation_only_box; reflexivity.
Defined.
End HeaderWitnesses.

Section BoundingSphereWitness.
Import CollisionObject.
Local Open Scope R_scope.

Lemma quarter_turn_not_identity :
  @isIdentity R R_EigenOps SampleReal.quarter_turn = false.
Proof.
  unfold isIdentity, R_EigenOps, R_mat_eqb, R_vec_eqb, SampleReal.quarter_turn; simpl.
  destruct (Req_dec_T 0 1) as [H | H]; [exfalso; lra | reflexivity].
Qed.

Lemma quarter_turn_orthogonal : orthogonal SampleReal.quarter_turn.
Proof.
  unfold orthogonal, mmul, mtranspose, mcol, mcoeff, mrow, vdot, SampleReal.quarter_turn,
    Matrix3d_Identity; cbn.
  repeat f_equal; ring.
Qed.

Lemma computeAABB_encloses_bounding_sphere_witness :
  let o := SampleReal.turned_object in
  let p := mkVector3d 4 0 0 in
  deref SampleReal.heap (cgeom o) = Some SampleReal.geom /\
  @isIdentity R R_EigenOps (linear (t o)) = false /\
  orthogonal (linear (t o)) /\
  norm (vsub p (CollisionGeometry.aabb_center SampleReal.geom)) <=
    CollisionGeometry.aabb_radius SampleReal.geom /\
  exists o' : object R,
    @computeAABB R _ R_EigenOps SampleReal.heap o = Some o' /\
    inside (getAABB o') (transform (t o) p).
Proof.
  intros o p.
  assert (Hg : deref SampleReal.heap (cgeom o) = Some SampleReal.geom) by reflexivity.
  assert (Hid : @isIdentity R R_EigenOps (linear (t o)) = false)
    by exact quarter_turn_not_identity.
  assert (HT : orthogonal (linear (t o))) by exact quarter_turn_orthogonal.
  assert (Hp : norm (vsub p (CollisionGeometry.aabb_center SampleReal.geom)) <=
               CollisionGeometry.aabb_radius SampleReal.geom).
  { replace (vsub p (CollisionGeometry.aabb_center SampleReal.geom))
      with (mkVector3d 4 0 0) by (apply vec_ext; cbn; ring).
    rewrite norm_on_x_axis by lra. cbn. lra. }
  split; [exact Hg |]. split; [exact Hid |]. split; [exact HT |]. split; [exact Hp |].
  assert (Ho' : exists o' : object R,
             @computeAABB R _ R_EigenOps SampleReal.heap o = Some o').
  { unfold computeAABB. rewrite Hg, Hid. eexists. reflexivity. }
  destruct Ho' as [o' Ho']. exists o'. split; [exact Ho' |].
  exact (@computeAABB_encloses_bounding_sphere R_EigenOps SampleReal.heap o o'
           SampleReal.geom p Hg Hid HT Ho' Hp).
Defined.

Lemma computeMomentofInertiaRelatedToCOM_base_witness :
  CollisionGeometry.computeCOM SampleReal.base_geom = CollisionGeometry.base_computeCOM /\
  CollisionGeometry.computeMomentofInertia SampleReal.base_geom =
    CollisionGeometry.base_computeMomentofInertia /\
  CollisionGeometry.computeVolume SampleReal.base_geom = CollisionGeometry.base_computeVolume /\
  mcoeff (CollisionGeometry.computeMomentofInertiaRelatedToCOM SampleReal.base_geom) I0 I1 = 0.
Proof.
  split; [reflexivity |]. split; [reflexivity |]. split; [reflexivity |].
  apply (computeMomentofInertiaRelatedToCOM_base SampleReal.base_geom I0 I1); reflexivity.
Defined.
End BoundingSphereWitness.

(** ** Continuous collision objects *)

Section ContinuousFacts.
Context {F : Type} {SF : Scalar F} {TF : TaylorOps F}.
Import ContinuousCollisionObject.

(** X14. [computeAABB] bounds the images of the eight corners of the local box,
    from the all-lower corner to the all-upper one, and writes nothing but
    [aabb]. *)
Theorem continuous_computeAABB_walks_corners
        (h : Heap F) (mh : MotionHeap) (o : object)
        (m : MotionBase) (g : CollisionGeometry.geometry F) (R : TMatrix3) (T : TVector3) :
  deref_motion mh (motion o) = Some m ->
  deref h (cgeom o) = Some g ->
  getTaylorModel m = (R, T) ->
  let a := CollisionGeometry.aabb_local g in
  let box := image_bound R T (corner a false false false) (later_corners a) in
  computeAABB h mh o =
  Some (mk (cgeom o) (cgeom_const o) (motion o)
           (mkAABB (getLow box) (getHigh box)) (user_data o)).
Proof.
  intros Hm Hg HRT a box. unfold computeAABB. rewrite Hm, Hg, HRT.
  subst box a. destruct (CollisionGeometry.aabb_local g) as [[lx ly lz] [ux uy uz]].
  reflexivity.
Qed.

(** X16. [computeAABB] has a meaning exactly when both the motion and the
    geometry pointer can be dereferenced. *)
Theorem continuous_computeAABB_defined (h : Heap F) (mh : MotionHeap) (o : object) :
  computeAABB h mh o = None <->
  deref_motion mh (motion o) = None \/ deref h (cgeom o) = None.
Proof.
  unfold computeAABB.
  destruct (deref_motion mh (motion o)) as [m |]; [| tauto].
  destruct (deref h (cgeom o)) as [g |]; [| tauto].
  destruct (getTaylorModel m) as [R T].
  split; [discriminate | intros [H | H]; discriminate].
Qed.

(** X17. Neither constructor computes the world box: the object holds the
    default box, and the one built without a motion holds a null motion
    pointer on which [computeAABB] has no meaning, whatever the heaps. *)
Theorem continuous_constructors_leave_box
        (AABB_default : AABB F) (cgeom_ motion_ : shared_ptr) (raw : void_ptr)
        (h : Heap F) (mh : MotionHeap) :
  getAABB (ContinuousCollisionObject_1 AABB_default cgeom_ raw) = AABB_default /\
  getAABB (ContinuousCollisionObject_2 AABB_default cgeom_ motion_ raw) = AABB_default /\
  getMotion (ContinuousCollisionObject_1 AABB_default cgeom_ raw) = None /\
  computeAABB h mh (ContinuousCollisionObject_1 AABB_default cgeom_ raw) = None /\
  ContinuousCollisionObject_2 AABB_default cgeom_ None raw =
    ContinuousCollisionObject_1 AABB_default cgeom_ raw.
Proof. repeat split. Qed.

Section Bounds.
(** [within a b]: the interval vector [a] lies within [b]. *)
Variable within : IVector3 -> IVector3 -> Prop.
Hypothesis within_refl : forall a, within a a.
Hypothesis within_trans : forall a b c, within a b -> within b c -> within a c.
Hypothesis bound_l : forall a b, within a (bound a b).
Hypothesis bound_r : forall a b, within b (bound a b).

Lemma bound_fold_grows (R : TMatrix3) (T : TVector3) (qs : list (Vector3d F))
      (b0 b : IVector3) :
  within b0 b ->
  within b0 (fold_left (fun box q => bound box (tight_image R T q)) qs b).
Proof.
  revert b. induction qs as [| q qs IH]; intros b Hb; [exact Hb |].
  simpl. apply IH. apply (within_trans Hb). apply bound_l.
Qed.

Lemma image_bound_first (R : TMatrix3) (T : TVector3) (p : Vector3d F)
      (ps : list (Vector3d F)) :
  within (tight_image R T p) (image_bound R T p ps).
Proof. unfold image_bound. apply bound_fold_grows. apply within_refl. Qed.

Lemma image_bound_later (R : TMatrix3) (T : TVector3) (p q : Vector3d F)
      (ps : list (Vector3d F)) :
  In q ps -> within (tight_image R T q) (image_bound R T p ps).
Proof.
  unfold image_bound. generalize (tight_image R T p) as b.
  induction ps as [| q' ps IH]; intros b Hin; [contradiction |].
  simpl. destruct Hin as [-> | Hin].
  - apply bound_fold_grows. apply bound_r.
  - apply IH. exact Hin.
Qed.

(** X15. When [bound] gives an upper bound of its two arguments in a preorder
    on interval vectors, the box that [computeAABB] stores is read off an
    interval vector that holds the tight bound of the image of every corner
    of the local box. *)
Theorem continuous_computeAABB_bounds_corners
        (h : Heap F) (mh : MotionHeap) (o : object)
        (m : MotionBase) (g : CollisionGeometry.geometry F) (R : TMatrix3) (T : TVector3) :
  deref_motion mh (motion o) = Some m ->
  deref h (cgeom o) = Some g ->
  getTaylorModel m = (R, T) ->
  exists (o' : object) (box : IVector3),
    computeAABB h mh o = Some o' /\
    getAABB o' = mkAABB (getLow box) (getHigh box) /\
    forall ux uy uz : bool,
      within (tight_image R T (corner (CollisionGeometry.aabb_local g) ux uy uz)) box.
Proof.
  intros Hm Hg HRT.
  pose (a := CollisionGeometry.aabb_local g).
  exists (mk (cgeom o) (cgeom_const o) (motion o)
             (mkAABB (getLow (image_bound R T (corner a false false false) (later_corners a)))
                     (getHigh (image_bound R T (corner a false false false) (later_corners a))))
             (user_data o)),
         (image_bound R T (corner a false false false) (later_corners a)).
  split; [| split; [reflexivity |]].
  - unfold computeAABB. rewrite Hm, Hg, HRT.
    subst a. destruct (CollisionGeometry.aabb_local g) as [[lx ly lz] [hx hy hz]].
    reflexivity.
  - fold a. intros ux uy uz.
    destruct ux, uy, uz;
      first [ apply image_bound_first
            | apply image_bound_later; unfold later_corners; simpl; tauto ].
Qed.
End Bounds.
End ContinuousFacts.

Section ContinuousWitnesses.
Import ContinuousCollisionObject.
Local Open Scope Z_scope.

Lemma Z_within_refl (a : Vector3d Z * Vector3d Z) : Z_within a a.
Proof. unfold Z_within. lia. Qed.

Lemma Z_within_trans (a b c : Vector3d Z * Vector3d Z) :
  Z_within a b -> Z_within b c -> Z_within a c.
Proof. unfold Z_within. lia. Qed.

Lemma Z_hull_l (a b : Vector3d Z * Vector3d Z) : Z_within a (Z_hull a b).
Proof. unfold Z_within, Z_hull. simpl. lia. Qed.

Lemma Z_hull_r (a b : Vector3d Z * Vector3d Z) : Z_within b (Z_hull a b).
Proof. unfold Z_within, Z_hull. simpl. lia. Qed.

Example continuous_computeAABB_quarter_turn :
  option_map getAABB (computeAABB Sample.heap SampleMore.motions SampleMore.moving) =
  Some (mkAABB (mkVector3d 8 19 27) (mkVector3d 12 21 33)).
Proof. reflexivity. Qed.

Lemma continuous_computeAABB_walks_corners_witness :
  let a := CollisionGeometry.aabb_local Sample.geom in
  let box := image_bound (TF := Z_TaylorOps) Sample.quarter_turn (mkVector3d 10 20 30)
               (corner a false false false) (later_corners a) in
  deref_motion SampleMore.motions (motion SampleMore.moving) = Some SampleMore.turned /\
  deref Sample.heap (cgeom SampleMore.moving) = Some Sample.geom /\
  getTaylorModel (TaylorOps := Z_TaylorOps) SampleMore.turned =
    (Sample.quarter_turn, mkVector3d 10 20 30) /\
  computeAABB Sample.heap SampleMore.motions SampleMore.moving =
  Some (mk (cgeom SampleMore.moving) (cgeom_const SampleMore.moving)
           (motion SampleMore.moving)
           (mkAABB (getLow box) (getHigh box)) (user_data SampleMore.moving)).
Proof.
  intros a box. split; [reflexivity |]. split; [reflexivity |]. split; [reflexivity |].
  apply (continuous_computeAABB_walks_corners Sample.heap SampleMore.motions
           SampleMore.moving (m := SampleMore.turned) (g := Sample.geom)
           (R := Sample.quarter_turn) (T := mkVector3d 10 20 30));
    reflexivity.
Defined.

Lemma continuous_computeAABB_bounds_corners_witness :
  (forall a, Z_within a a) /\
  (forall a b c, Z_within a b -> Z_within b c -> Z_within a c) /\
  (forall a b, Z_within a (Z_hull a b)) /\
  (forall a b, Z_within b (Z_hull a b)) /\
  deref_motion SampleMore.motions (motion SampleMore.moving) = Some SampleMore.turned /\
  deref Sample.heap (cgeom SampleMore.moving) = Some Sample.geom /\
  getTaylorModel (TaylorOps := Z_TaylorOps) SampleMore.turned =
    (Sample.quarter_turn, mkVector3d 10 20 30) /\
  exists (o' : object (F := Z)) (box : Vector3d Z * Vector3d Z),
    computeAABB Sample.heap SampleMore.motions SampleMore.moving = Some o' /\
    getAABB o' = mkAABB (fst box) (snd box) /\
    forall ux uy uz : bool,
      Z_within (tight_image (TF := Z_TaylorOps) Sample.quarter_turn (mkVector3d 10 20 30)
                  (corner (CollisionGeometry.aabb_local Sample.geom) ux uy uz)) box.
Proof.
  split; [exact Z_within_refl |]. split; [exact Z_within_trans |].
  split; [exact Z_hull_l |]. split; [exact Z_hull_r |].
  split; [reflexivity |]. split; [reflexivity |]. split; [reflexivity |].
  apply (continuous_computeAABB_bounds_corners (TF := Z_TaylorOps) Z_within
           Z_within_refl Z_within_trans Z_hull_l Z_hull_r
           Sample.heap SampleMore.motions SampleMore.moving
           (m := SampleMore.turned) (g := Sample.geom));
    reflexivity.
Defined.
End ContinuousWitnesses.

(** ** Loops and vectors *)

Section Loops.
Context {St A : Type}.

Lemma for_each_None (body : St -> A -> option St) (l : list A) :
  fold_left (fun acc a => match acc with Some s' => body s' a | None => None end) l None = None.
Proof. induction l as [| a l IH]; simpl; auto. Qed.

Lemma for_each_total (body : St -> A -> option St) (f : St -> A -> St) (l : list A) (s : St) :
  (forall s' a, body s' a = Some (f s' a)) ->
  for_each body l s = Some (fold_left f l s).
Proof.
  intros H. unfold for_each. revert s.
  induction l as [| a l IH]; intros s; simpl; [reflexivity |].
  rewrite H. apply IH.
Qed.

Lemma for_each_fails (body : St -> A -> option St) (l : list A) (s : St) :
  l <> [] -> (forall s' a, body s' a = None) -> for_each body l s = None.
Proof.
  destruct l as [| a l]; [congruence |]. intros _ H.
  unfold for_each. simpl. rewrite H. apply for_each_None.
Qed.

Lemma fold_left_map_arg (B : Type) (g : St -> B -> St) (phi : A -> B) (l : list A) (s : St) :
  fold_left (fun s' a => g s' (phi a)) l s = fold_left g (map phi l) s.
Proof. revert s. induction l as [| a l IH]; intros s; simpl; auto. Qed.
End Loops.

Section Vectors.
Context {A : Type}.

Lemma update_at_length (f : A -> A) (i : nat) (v : list A) :
  length (update_at f i v) = length v.
Proof. revert i. induction v as [| b v IH]; intros [| i]; simpl; auto. Qed.

Lemma update_at_nth_same (f : A -> A) (i : nat) (v : list A) (d : A) :
  (i < length v)%nat -> nth i (update_at f i v) d = f (nth i v d).
Proof.
  revert i. induction v as [| b v IH]; intros [| i] Hi; simpl in *; try lia; auto.
  apply IH. lia.
Qed.

Lemma update_at_nth_other (f : A -> A) (i j : nat) (v : list A) (d : A) :
  i <> j -> nth j (update_at f i v) d = nth j v d.
Proof.
  revert i j. induction v as [| b v IH]; intros [| i] [| j] Hij; simpl; auto; try congruence.
Qed.

Lemma fold_update_length (f : A -> A) (js : list nat) (v : list A) :
  length (fold_left (fun t' i => update_at f i t') js v) = length v.
Proof.
  revert v. induction js as [| i js IH]; intros v; simpl; [reflexivity |].
  rewrite IH. apply update_at_length.
Qed.

Lemma fold_update_nth (f : A -> A) (js : list nat) (v : list A) (j : nat) (d : A) :
  (j < length v)%nat ->
  nth j (fold_left (fun t' i => update_at f i t') js v) d =
  Nat.iter (count_occ Nat.eq_dec js j) f (nth j v d).
Proof.
  revert v. induction js as [| i js IH]; intros v Hj; [reflexivity |].
  simpl fold_left. rewrite IH by (rewrite update_at_length; exact Hj).
  destruct (Nat.eq_dec i j) as [-> | Hne].
  - rewrite count_occ_cons_eq by reflexivity.
    rewrite update_at_nth_same by exact Hj. symmetry. apply Nat.iter_succ_r.
  - rewrite count_occ_cons_neq by exact Hne.
    rewrite update_at_nth_other by exact Hne. reflexivity.
Qed.

Lemma resize_length (n : nat) (d : A) (v : list A) : length (resize n d v) = n.
Proof. unfold resize. rewrite length_app, length_firstn, repeat_length. lia. Qed.

Lemma resize_nth (n : nat) (d : A) (v : list A) (i : nat) :
  (i < n)%nat ->
  nth i (resize n d v) d = if (i <? length v)%nat then nth i v d else d.
Proof.
  intros Hi. unfold resize.
  destruct (Nat.ltb_spec i (length v)) as [Hlt | Hge].
  - rewrite app_nth1 by (rewrite length_firstn; lia).
    rewrite nth_firstn. destruct (Nat.ltb_spec i n); [reflexivity | lia].
  - rewrite app_nth2 by (rewrite length_firstn; lia).
    apply nth_repeat.
Qed.

Lemma iter_push (x : A) (n : nat) (b : list A) :
  Nat.iter n (fun b' => b' ++ [x]) b = b ++ repeat x n.
Proof.
  induction n as [| n IH]; simpl; [symmetry; apply app_nil_r |].
  rewrite IH, <- app_assoc. f_equal. symmetry. apply repeat_cons.
Qed.

Lemma filter_twice (p : A -> bool) (l : list A) : filter p (filter p l) = filter p l.
Proof.
  induction l as [| a l IH]; simpl; [reflexivity |].
  destruct (p a) eqn:Hp; simpl; [rewrite Hp, IH; reflexivity | exact IH].
Qed.

Lemma iter_filter (p : A -> bool) (n : nat) (b : list A) :
  Nat.iter n (filter p) b = if (n =? 0)%nat then b else filter p b.
Proof.
  induction n as [| n IH]; [reflexivity |].
  simpl Nat.iter. rewrite IH. destruct n; simpl; [reflexivity | apply filter_twice].
Qed.
End Vectors.

(** ** The hash table *)

Section HashTableFacts.
Variables Key Data : Type.
Variables Data_eqb Data_ltb : Data -> Data -> bool.
Variable h_ : Key -> list N.

Lemma size_pos (t : SimpleHashTable.table Data) : t <> [] -> SimpleHashTable.size t <> 0%N.
Proof. destruct t; [congruence |]. intros _. unfold SimpleHashTable.size. simpl. lia. Qed.

Lemma index_of_pos (range idx : N) :
  range <> 0%N -> SimpleHashTable.index_of range idx = Some (idx mod range)%N.
Proof.
  intros Hr. unfold SimpleHashTable.index_of.
  destruct (N.eqb_spec range 0); [contradiction | reflexivity].
Qed.

Lemma index_of_zero (idx : N) : SimpleHashTable.index_of 0 idx = None.
Proof. reflexivity. Qed.

Lemma bins_of_lt (range : N) (key : Key) (i : N) :
  range <> 0%N -> In i (SimpleHashTable.bins_of h_ range key) -> (i < range)%N.
Proof.
  intros Hr Hin. unfold SimpleHashTable.bins_of in Hin.
  apply in_map_iff in Hin. destruct Hin as (idx & <- & _).
  apply N.mod_lt. exact Hr.
Qed.

Lemma hits_nat (range : N) (key : Key) (i : N) :
  count_occ Nat.eq_dec (map N.to_nat (SimpleHashTable.bins_of h_ range key)) (N.to_nat i) =
  SimpleHashTable.hits h_ range key i.
Proof.
  unfold SimpleHashTable.hits.
  induction (SimpleHashTable.bins_of h_ range key) as [| j js IH]; [reflexivity |].
  simpl map. destruct (N.eq_dec j i) as [-> | Hne].
  - rewrite !count_occ_cons_eq by reflexivity. rewrite IH. reflexivity.
  - rewrite !count_occ_cons_neq; [exact IH | exact Hne |].
    intros H. apply Hne. apply N2Nat.inj. exact H.
Qed.

Lemma hits_pos (range : N) (key : Key) (i : N) :
  (SimpleHashTable.hits h_ range key i =? 0)%nat = false <->
  In i (SimpleHashTable.bins_of h_ range key).
Proof.
  unfold SimpleHashTable.hits. rewrite (count_occ_In N.eq_dec).
  destruct (Nat.eqb_spec (count_occ N.eq_dec (SimpleHashTable.bins_of h_ range key) i) 0);
    split; intros; try lia; congruence.
Qed.

(** What the loops of [insert] and [remove] do to a table with bins. *)
Lemma update_loop_runs (f : SimpleHashTable.Bin Data -> SimpleHashTable.Bin Data)
      (key : Key) (t : SimpleHashTable.table Data) :
  t <> [] ->
  for_each (fun t' idx =>
              match SimpleHashTable.index_of (SimpleHashTable.size t) idx with
              | None => None
              | Some index => Some (update_at f (N.to_nat index) t')
              end) (h_ key) t =
  Some (fold_left (fun t' j => update_at f j t')
          (map N.to_nat (SimpleHashTable.bins_of h_ (SimpleHashTable.size t) key)) t).
Proof.
  intros Ht. pose proof (size_pos Ht) as Hr.
  rewrite (for_each_total _
             (fun t' idx => update_at f (N.to_nat (idx mod SimpleHashTable.size t)) t')).
  - f_equal. unfold SimpleHashTable.bins_of. rewrite map_map.
    apply (fold_left_map_arg (fun t' j => update_at f j t')
             (fun idx => N.to_nat (idx mod SimpleHashTable.size t))).
  - intros t' idx. rewrite (index_of_pos idx Hr). reflexivity.
Qed.

Lemma update_loop_bin (f : SimpleHashTable.Bin Data -> SimpleHashTable.Bin Data)
      (key : Key) (t : SimpleHashTable.table Data) (i : N) :
  (i < SimpleHashTable.size t)%N ->
  SimpleHashTable.bin
    (fold_left (fun t' j => update_at f j t')
       (map N.to_nat (SimpleHashTable.bins_of h_ (SimpleHashTable.size t) key)) t) i =
  Nat.iter (SimpleHashTable.hits h_ (SimpleHashTable.size t) key i) f (SimpleHashTable.bin t i).
Proof.
  intros Hi. unfold SimpleHashTable.bin.
  rewrite fold_update_nth by (unfold SimpleHashTable.size in Hi; lia).
  rewrite hits_nat. reflexivity.
Qed.

Lemma update_loop_size (f : SimpleHashTable.Bin Data -> SimpleHashTable.Bin Data)
      (js : list nat) (t : SimpleHashTable.table Data) :
  SimpleHashTable.size (fold_left (fun t' j => update_at f j t') js t) = SimpleHashTable.size t.
Proof. unfold SimpleHashTable.size. rewrite fold_update_length. reflexivity. Qed.

Lemma insert_bins (key : Key) (value : Data) (t : SimpleHashTable.table Data) :
  t <> [] ->
  exists t' : SimpleHashTable.table Data,
    SimpleHashTable.insert h_ key value t = Some t' /\
    SimpleHashTable.size t' = SimpleHashTable.size t /\
    forall i : N,
      (i < SimpleHashTable.size t)%N ->
      SimpleHashTable.bin t' i =
      SimpleHashTable.bin t i ++
        repeat value (SimpleHashTable.hits h_ (SimpleHashTable.size t) key i).
Proof.
  intros Ht. eexists. split; [| split].
  - unfold SimpleHashTable.insert. apply update_loop_runs. exact Ht.
  - apply update_loop_size.
  - intros i Hi. rewrite update_loop_bin by exact Hi. apply iter_push.
Qed.

Lemma remove_bins (key : Key) (value : Data) (t : SimpleHashTable.table Data) :
  t <> [] ->
  exists t' : SimpleHashTable.table Data,
    SimpleHashTable.remove Data_eqb h_ key value t = Some t' /\
    SimpleHashTable.size t' = SimpleHashTable.size t /\
    forall i : N,
      (i < SimpleHashTable.size t)%N ->
      SimpleHashTable.bin t' i =
      if (SimpleHashTable.hits h_ (SimpleHashTable.size t) key i =? 0)%nat
      then SimpleHashTable.bin t i
      else SimpleHashTable.list_remove Data_eqb value (SimpleHashTable.bin t i).
Proof.
  intros Ht. eexists. split; [| split].
  - unfold SimpleHashTable.remove. apply update_loop_runs. exact Ht.
  - apply update_loop_size.
  - intros i Hi. rewrite update_loop_bin by exact Hi.
    unfold SimpleHashTable.list_remove. apply iter_filter.
Qed.

(** X19. [insert] on a table with bins appends the value to each bin of the
    key, once for every index that falls into the bin, and touches nothing
    else. *)
Theorem insert_appends (key : Key) (value : Data) (t : SimpleHashTable.table Data) :
  t <> [] ->
  exists t' : SimpleHashTable.table Data,
    SimpleHashTable.insert h_ key value t = Some t' /\
    SimpleHashTable.size t' = SimpleHashTable.size t /\
    forall i : N,
      (i < SimpleHashTable.size t)%N ->
      SimpleHashTable.bin t' i =
      SimpleHashTable.bin t i ++
        repeat value (SimpleHashTable.hits h_ (SimpleHashTable.size t) key i).
Proof.
  intros Ht. eexists. split; [| split].
  - unfold SimpleHashTable.insert. apply update_loop_runs. exact Ht.
  - apply update_loop_size.
  - intros i Hi. rewrite update_loop_bin by exact Hi. apply iter_push.
Qed.

(** X20. [remove] on a table with bins drops every copy of the value from each
    bin of the key and touches no other bin. *)
Theorem remove_purges_bins (key : Key) (value : Data) (t : SimpleHashTable.table Data) :
  t <> [] ->
  exists t' : SimpleHashTable.table Data,
    SimpleHashTable.remove Data_eqb h_ key value t = Some t' /\
    SimpleHashTable.size t' = SimpleHashTable.size t /\
    forall i : N,
      (i < SimpleHashTable.size t)%N ->
      SimpleHashTable.bin t' i =
      if (SimpleHashTable.hits h_ (SimpleHashTable.size t) key i =? 0)%nat
      then SimpleHashTable.bin t i
      else SimpleHashTable.list_remove Data_eqb value (SimpleHashTable.bin t i).
Proof.
  intros Ht. eexists. split; [| split].
  - unfold SimpleHashTable.remove. apply update_loop_runs. exact Ht.
  - apply update_loop_size.
  - intros i Hi. rewrite update_loop_bin by exact Hi.
    unfold SimpleHashTable.list_remove. apply iter_filter.
Qed.

(** X21. A table without bins, as the constructor and [clear] leave it: a call
    with a key that hashes to some index computes [% 0], and a key that
    hashes to no index finds nothing to do. *)
Theorem no_bins_no_meaning (key : Key) (value : Data) (t : SimpleHashTable.table Data) :
  (h_ key <> [] ->
   SimpleHashTable.insert h_ key value (SimpleHashTable.clear t) = None /\
   SimpleHashTable.query Data_ltb h_ key (SimpleHashTable.clear t) = None /\
   SimpleHashTable.remove Data_eqb h_ key value (SimpleHashTable.clear t) = None /\
   SimpleHashTable.insert h_ key value (SimpleHashTable.SimpleHashTable_ctor Data) = None) /\
  (h_ key = [] ->
   SimpleHashTable.insert h_ key value t = Some t /\
   SimpleHashTable.query Data_ltb h_ key t = Some [] /\
   SimpleHashTable.remove Data_eqb h_ key value t = Some t).
Proof.
  split.
  - intros Hk.
    unfold SimpleHashTable.insert, SimpleHashTable.query, SimpleHashTable.remove,
      SimpleHashTable.clear, SimpleHashTable.SimpleHashTable_ctor.
    repeat split; apply for_each_fails; auto.
  - intros Hk.
    unfold SimpleHashTable.insert, SimpleHashTable.query, SimpleHashTable.remove.
    rewrite Hk. repeat split.
Qed.

(** X18. [init(0)] throws and [init] with another size returns a table of that
    many bins in which the bins that were there keep their contents: it
    does not empty a table that is in use. *)
Theorem init_keeps_bins (size_ : N) (t : SimpleHashTable.table Data) :
  SimpleHashTable.init 0 t =
    Thrown_logic_error "SimpleHashTable must have non-zero size."%string /\
  (size_ <> 0%N ->
   exists t' : SimpleHashTable.table Data,
     SimpleHashTable.init size_ t = Returned t' /\
     SimpleHashTable.size t' = size_ /\
     forall i : N,
       (i < size_)%N ->
       SimpleHashTable.bin t' i =
       if (i <? SimpleHashTable.size t)%N then SimpleHashTable.bin t i else []).
Proof.
  split; [reflexivity |]. intros Hs.
  unfold SimpleHashTable.init. destruct (N.eqb_spec size_ 0) as [| _]; [contradiction |].
  eexists. split; [reflexivity |]. split.
  - unfold SimpleHashTable.size. rewrite resize_length. apply N2Nat.id.
  - intros i Hi. unfold SimpleHashTable.bin, SimpleHashTable.size.
    rewrite resize_nth by lia.
    destruct (Nat.ltb_spec (N.to_nat i) (length t)), (N.ltb_spec i (N.of_nat (length t)));
      try reflexivity; lia.
Qed.
End HashTableFacts.

Section HashQueryFacts.
Variables Key Data : Type.
Variables Data_eqb Data_ltb : Data -> Data -> bool.
Variable h_ : Key -> list N.
Hypothesis HO : DataOrder Data_eqb Data_ltb.

Local Abbreviation lt_Data := (fun a b : Data => Data_ltb a b = true).

Lemma set_insert_In (x y : Data) (s : list Data) :
  In x (SimpleHashTable.set_insert Data_ltb y s) <-> x = y \/ In x s.
Proof.
  induction s as [| z s IH]; simpl; [intuition congruence |].
  destruct (Data_ltb y z) eqn:Hyz; [simpl; intuition congruence |].
  destruct (Data_ltb z y) eqn:Hzy; [simpl; rewrite IH; intuition congruence |].
  pose proof (ltb_total HO _ _ Hyz Hzy) as ->. simpl. intuition congruence.
Qed.

Lemma set_insert_sorted (y : Data) (s : list Data) :
  Sorted.StronglySorted lt_Data s ->
  Sorted.StronglySorted lt_Data (SimpleHashTable.set_insert Data_ltb y s).
Proof.
  induction 1 as [| z s Hs IH Hz]; simpl.
  - constructor; constructor.
  - destruct (Data_ltb y z) eqn:Hyz.
    + constructor; [constructor; assumption |].
      constructor; [exact Hyz |].
      rewrite Forall_forall in *. intros w Hw.
      apply (ltb_trans HO _ _ _ Hyz). apply Hz. exact Hw.
    + destruct (Data_ltb z y) eqn:Hzy; [| constructor; assumption].
      constructor; [exact IH |].
      rewrite Forall_forall in *. intros w Hw.
      apply set_insert_In in Hw. destruct Hw as [-> | Hw]; [exact Hzy | apply Hz; exact Hw].
Qed.

Lemma copy_into_In (x : Data) (b result : list Data) :
  In x (SimpleHashTable.copy_into Data_ltb b result) <-> In x b \/ In x result.
Proof.
  unfold SimpleHashTable.copy_into. revert result.
  induction b as [| y b IH]; intros result; simpl; [tauto |].
  rewrite IH, set_insert_In. intuition congruence.
Qed.

Lemma copy_into_sorted (b result : list Data) :
  Sorted.StronglySorted lt_Data result ->
  Sorted.StronglySorted lt_Data (SimpleHashTable.copy_into Data_ltb b result).
Proof.
  unfold SimpleHashTable.copy_into. revert result.
  induction b as [| y b IH]; intros result Hs; simpl; [exact Hs |].
  apply IH. apply set_insert_sorted. exact Hs.
Qed.

Lemma sorted_NoDup (s : list Data) : Sorted.StronglySorted lt_Data s -> NoDup s.
Proof.
  induction 1 as [| z s Hs IH Hz]; constructor; [| exact IH].
  intros Hin. rewrite Forall_forall in Hz. specialize (Hz z Hin). simpl in Hz.
  rewrite (ltb_irrefl HO) in Hz. discriminate.
Qed.

Lemma query_runs (key : Key) (t : SimpleHashTable.table Data) :
  t <> [] ->
  SimpleHashTable.query Data_ltb h_ key t =
  Some (fold_left (fun result i =>
                     SimpleHashTable.copy_into Data_ltb (SimpleHashTable.bin t i) result)
                  (SimpleHashTable.bins_of h_ (SimpleHashTable.size t) key) []).
Proof.
  intros Ht. pose proof (size_pos Ht) as Hr. unfold SimpleHashTable.query.
  rewrite (for_each_total _
             (fun result idx =>
                SimpleHashTable.copy_into Data_ltb
                  (SimpleHashTable.bin t (idx mod SimpleHashTable.size t)) result)).
  - f_equal. unfold SimpleHashTable.bins_of.
    apply (fold_left_map_arg
             (fun result i =>
                SimpleHashTable.copy_into Data_ltb (SimpleHashTable.bin t i) result)
             (fun idx => (idx mod SimpleHashTable.size t)%N)).
  - intros result idx. rewrite (index_of_pos idx Hr). reflexivity.
Qed.

Lemma collect_In (t : SimpleHashTable.table Data) (x : Data) (js : list N)
      (result : list Data) :
  In x (fold_left (fun result i =>
                     SimpleHashTable.copy_into Data_ltb (SimpleHashTable.bin t i) result)
                  js result) <->
  In x result \/ exists i : N, In i js /\ In x (SimpleHashTable.bin t i).
Proof.
  revert result. induction js as [| j js IH]; intros result; simpl.
  - split; [auto | intros [H | (i & [] & _)]; exact H].
  - rewrite IH, copy_into_In. split.
    + intros [[H | H] | (i & Hi & H)]; eauto.
    + intros [H | (i & [<- | Hi] & H)]; eauto.
Qed.

Lemma collect_sorted (t : SimpleHashTable.table Data) (js : list N) (result : list Data) :
  Sorted.StronglySorted lt_Data result ->
  Sorted.StronglySorted lt_Data
    (fold_left (fun result i =>
                  SimpleHashTable.copy_into Data_ltb (SimpleHashTable.bin t i) result)
               js result).
Proof.
  revert result. induction js as [| j js IH]; intros result Hs; simpl; [exact Hs |].
  apply IH. apply copy_into_sorted. exact Hs.
Qed.

Lemma query_In (key : Key) (t : SimpleHashTable.table Data) :
  t <> [] ->
  exists result : list Data,
    SimpleHashTable.query Data_ltb h_ key t = Some result /\
    forall x : Data,
      In x result <->
      exists i : N, In i (SimpleHashTable.bins_of h_ (SimpleHashTable.size t) key) /\
                    In x (SimpleHashTable.bin t i).
Proof.
  intros Ht. eexists. split; [apply query_runs; exact Ht |].
  intros x. rewrite collect_In. simpl. tauto.
Qed.

(** X22. [query] on a table with bins returns the values of the bins of the
    key, each once and in ascending order. *)
Theorem query_collects_bins (key : Key) (t : SimpleHashTable.table Data) :
  t <> [] ->
  exists result : list Data,
    SimpleHashTable.query Data_ltb h_ key t = Some result /\
    (forall x : Data,
       In x result <->
       exists i : N, In i (SimpleHashTable.bins_of h_ (SimpleHashTable.size t) key) /\
                     In x (SimpleHashTable.bin t i)) /\
    Sorted.StronglySorted lt_Data result /\
    NoDup result.
Proof.
  intros Ht. eexists. split; [apply query_runs; exact Ht |].
  assert (Hs : Sorted.StronglySorted lt_Data
                 (fold_left (fun result i =>
                     SimpleHashTable.copy_into Data_ltb (SimpleHashTable.bin t i) result)
                  (SimpleHashTable.bins_of h_ (SimpleHashTable.size t) key) [])).
  { apply collect_sorted. constructor. }
  split; [| split; [exact Hs | apply sorted_NoDup; exact Hs]].
  intros x. rewrite collect_In. simpl. tauto.
Qed.

Local Ltac bin_lt :=
  eapply bins_of_lt; [apply size_pos; eassumption | eassumption].

Lemma nonempty_size (t t' : SimpleHashTable.table Data) :
  t <> [] -> SimpleHashTable.size t' = SimpleHashTable.size t -> t' <> [].
Proof.
  intros Ht Hs ->. apply (size_pos Ht). rewrite <- Hs. reflexivity.
Qed.

(** X23. After [insert(key, value)] a query under any key finds what it found
    before, and the new value as well exactly when the two keys share a
    bin: under the key of the insertion whenever the key hashes to some
    index, and under another key as a false positive. *)
Theorem query_after_insert (key key' : Key) (value : Data) (t : SimpleHashTable.table Data) :
  t <> [] ->
  exists (t' : SimpleHashTable.table Data) (before after : list Data),
    SimpleHashTable.insert h_ key value t = Some t' /\
    SimpleHashTable.query Data_ltb h_ key' t = Some before /\
    SimpleHashTable.query Data_ltb h_ key' t' = Some after /\
    forall x : Data,
      In x after <->
      In x before \/
      (x = value /\
       exists i : N, In i (SimpleHashTable.bins_of h_ (SimpleHashTable.size t) key) /\
                     In i (SimpleHashTable.bins_of h_ (SimpleHashTable.size t) key')).
Proof.
  intros Ht.
  destruct (insert_bins h_ key value Ht) as (t' & Hins & Hsize & Hbin).
  destruct (query_In key' Ht) as (before & Hq & Hbefore).
  destruct (query_In key' (nonempty_size Ht Hsize)) as (after & Hq' & Hafter).
  exists t', before, after. split; [exact Hins |]. split; [exact Hq |]. split; [exact Hq' |].
  intros x. rewrite Hafter, Hbefore, Hsize. split.
  - intros (i & Hi & Hx).
    rewrite Hbin in Hx by bin_lt.
    apply in_app_or in Hx. destruct Hx as [Hx | Hx]; [left; eauto |].
    right. pose proof (repeat_spec _ _ _ Hx) as ->. split; [reflexivity |].
    exists i. split; [| exact Hi].
    apply (hits_pos h_). destruct (SimpleHashTable.hits h_ (SimpleHashTable.size t) key i);
      [contradiction | reflexivity].
  - intros [(i & Hi & Hx) | (-> & i & Hk & Hk')].
    + exists i. split; [exact Hi |].
      rewrite Hbin by bin_lt.
      apply in_or_app. left. exact Hx.
    + exists i. split; [exact Hk' |].
      rewrite Hbin by bin_lt.
      apply in_or_app. right. apply (hits_pos h_) in Hk.
      destruct (SimpleHashTable.hits h_ (SimpleHashTable.size t) key i);
        [discriminate | left; reflexivity].
Qed.

Lemma list_remove_In (x value : Data) (b : list Data) :
  In x (SimpleHashTable.list_remove Data_eqb value b) <-> In x b /\ x <> value.
Proof.
  unfold SimpleHashTable.list_remove. rewrite filter_In.
  destruct (Data_eqb x value) eqn:He; simpl.
  - apply (eqb_eq HO) in He. intuition congruence.
  - assert (x <> value) by (intros ->; rewrite (proj2 (eqb_eq HO value value) eq_refl) in He;
                            discriminate).
    intuition congruence.
Qed.

(** X24. After [remove(key, value)] a query under the same key does not find
    the value and finds every other value as before; a query under another
    key loses the value only from the bins it shares with the key, so it
    may still find it. *)
Theorem query_after_remove (key key' : Key) (value : Data) (t : SimpleHashTable.table Data) :
  t <> [] ->
  exists (t' : SimpleHashTable.table Data) (before after after' : list Data),
    SimpleHashTable.remove Data_eqb h_ key value t = Some t' /\
    SimpleHashTable.query Data_ltb h_ key t = Some before /\
    SimpleHashTable.query Data_ltb h_ key t' = Some after /\
    SimpleHashTable.query Data_ltb h_ key' t' = Some after' /\
    (forall x : Data, In x after <-> In x before /\ x <> value) /\
    (forall x : Data,
       In x after' <->
       exists i : N,
         In i (SimpleHashTable.bins_of h_ (SimpleHashTable.size t) key') /\
         In x (SimpleHashTable.bin t i) /\
         (x = value -> ~ In i (SimpleHashTable.bins_of h_ (SimpleHashTable.size t) key))).
Proof.
  intros Ht.
  destruct (remove_bins Data_eqb h_ key value Ht) as (t' & Hrem & Hsize & Hbin).
  destruct (query_In key Ht) as (before & Hq & Hbefore).
  destruct (query_In key (nonempty_size Ht Hsize)) as (after & Hq' & Hafter).
  destruct (query_In key' (nonempty_size Ht Hsize)) as (after' & Hq'' & Hafter').
  exists t', before, after, after'.
  split; [exact Hrem |]. split; [exact Hq |]. split; [exact Hq' |]. split; [exact Hq'' |].
  assert (Hin : forall (k : Key) (i : N) (x : Data),
             In i (SimpleHashTable.bins_of h_ (SimpleHashTable.size t) k) ->
             (In x (SimpleHashTable.bin t' i) <->
              In x (SimpleHashTable.bin t i) /\
              (x = value -> ~ In i (SimpleHashTable.bins_of h_ (SimpleHashTable.size t) key)))).
  { intros k i x Hi.
    rewrite Hbin by bin_lt.
    destruct (SimpleHashTable.hits h_ (SimpleHashTable.size t) key i =? 0)%nat eqn:Hh.
    - assert (~ In i (SimpleHashTable.bins_of h_ (SimpleHashTable.size t) key)).
      { intros Hc. apply (hits_pos h_) in Hc. congruence. }
      tauto.
    - apply (hits_pos h_) in Hh. rewrite list_remove_In. tauto. }
  split.
  - intros x. rewrite Hafter, Hbefore, Hsize. split.
    + intros (i & Hi & Hx). apply (Hin key i x Hi) in Hx. destruct Hx as [Hx Hv].
      split; [eauto |]. intros ->. apply (Hv eq_refl). exact Hi.
    + intros [(i & Hi & Hx) Hne]. exists i. split; [exact Hi |].
      apply (Hin key i x Hi). tauto.
  - intros x. rewrite Hafter', Hsize. split.
    + intros (i & Hi & Hx). exists i. split; [exact Hi |]. apply (Hin key' i x Hi). exact Hx.
    + intros (i & Hi & Hx). exists i. split; [exact Hi |]. apply (Hin key' i x Hi). exact Hx.
Qed.


End HashQueryFacts.

(** ** The matching of expected and actual contacts *)

Section Matching.
Import Narrowphase GeometricShapesTest.
Import Permutation.

Lemma untaken_none (A : Type) (actual : list A) :
  untaken actual (repeat false (length actual)) = actual.
Proof. induction actual as [| a actual IH]; simpl; [reflexivity | rewrite IH; reflexivity]. Qed.

Lemma find_actual_Some (check : ContactPoint -> bool) (actual : list ContactPoint)
      (taken taken' : list bool) :
  find_actual check actual taken = Some taken' ->
  exists a : ContactPoint,
    check a = true /\
    Permutation (untaken actual taken) (a :: untaken actual taken').
Proof.
  revert taken taken'.
  induction actual as [| a actual IH]; intros [| tk taken] taken' H; simpl in H;
    try discriminate.
  destruct tk.
  - destruct (find_actual check actual taken) as [taken1 |] eqn:Hf; [| discriminate].
    injection H as <-. simpl. apply IH. exact Hf.
  - destruct (check a) eqn:Hc.
    + injection H as <-. exists a. split; [exact Hc |]. simpl. apply Permutation_refl.
    + destruct (find_actual check actual taken) as [taken1 |] eqn:Hf; [| discriminate].
      injection H as <-. destruct (IH _ _ Hf) as (b & Hb & Hp).
      exists b. split; [exact Hb |]. simpl.
      apply (perm_trans (perm_skip a Hp)). apply perm_swap.
Qed.

Lemma match_expected_true (check : ContactPoint -> ContactPoint -> bool)
      (expected actual : list ContactPoint) (taken : list bool) (foundAll : bool) :
  match_expected check expected actual taken foundAll = true ->
  foundAll = true /\
  exists matched rest : list ContactPoint,
    Forall2 (fun e a => check e a = true) expected matched /\
    Permutation (untaken actual taken) (matched ++ rest).
Proof.
  revert taken foundAll.
  induction expected as [| e expected IH]; intros taken foundAll H; simpl in H.
  - split; [exact H |]. exists [], (untaken actual taken).
    split; [constructor | apply Permutation_refl].
  - destruct (find_actual (check e) actual taken) as [taken' |] eqn:Hf.
    + destruct (IH _ _ H) as (Hb & matched & rest & Hm & Hp).
      destruct (find_actual_Some _ _ _ Hf) as (a & Ha & Hpa).
      split; [exact Hb |]. exists (a :: matched), rest.
      split; [constructor; assumption |].
      apply (perm_trans Hpa). simpl. apply perm_skip. exact Hp.
    + destruct (IH _ _ H) as (Hb & _). discriminate.
Qed.

Lemma inspect_matching
      (expected actual : list ContactPoint) (p d n o : bool) (tol : R) :
  inspectContactPoints expected actual p d n o tol = true ->
  length actual = length expected /\
  exists matched : list ContactPoint,
    Permutation actual matched /\
    Forall2 (fun e a => checkContactPoints e a p d n o tol = true) expected matched.
Proof.
  unfold inspectContactPoints. intros H.
  destruct (Nat.eqb_spec (length actual) (length expected)) as [Hlen | Hlen];
    simpl in H; [| discriminate].
  split; [exact Hlen |].
  apply match_expected_true in H. destruct H as (_ & matched & rest & Hm & Hp).
  rewrite untaken_none in Hp.
  assert (Hrest : rest = []).
  { apply Permutation_length in Hp. rewrite length_app in Hp.
    apply Forall2_length in Hm. destruct rest; [reflexivity | simpl in Hp; lia]. }
  subst rest. rewrite app_nil_r in Hp.
  exists matched. split; assumption.
Qed.

(** X26. When [inspectContactPoints] returns true there are as many actual
    contacts as expected ones, and the actual contacts can be put in an
    order in which each passes [checkContactPoints] against the expected
    contact at its place. *)
Theorem inspectContactPoints_sound
        (expected actual : list ContactPoint) (p d n o : bool) (tol : R) :
  inspectContactPoints expected actual p d n o tol = true ->
  length actual = length expected /\
  exists matched : list ContactPoint,
    Permutation actual matched /\
    Forall2 (fun e a => checkContactPoints e a p d n o tol = true) expected matched.
Proof.
  unfold inspectContactPoints. intros H.
  destruct (Nat.eqb_spec (length actual) (length expected)) as [Hlen | Hlen];
    simpl in H; [| discriminate].
  split; [exact Hlen |].
  apply match_expected_true in H. destruct H as (_ & matched & rest & Hm & Hp).
  rewrite untaken_none in Hp.
  assert (Hrest : rest = []).
  { apply Permutation_length in Hp. rewrite length_app in Hp.
    apply Forall2_length in Hm. destruct rest; [reflexivity | simpl in Hp; lia]. }
  subst rest. rewrite app_nil_r in Hp.
  exists matched. split; assumption.
Qed.

Lemma find_actual_next (check : ContactPoint -> bool) (pre : list ContactPoint)
      (e : ContactPoint) (post : list ContactPoint) :
  check e = true ->
  find_actual check (pre ++ e :: post)
    (repeat true (length pre) ++ false :: repeat false (length post)) =
  Some (repeat true (length pre) ++ true :: repeat false (length post)).
Proof.
  intros He. induction pre as [| a pre IH]; simpl.
  - rewrite He. reflexivity.
  - rewrite IH. reflexivity.
Qed.

Lemma match_expected_same (check : ContactPoint -> ContactPoint -> bool)
      (pre l : list ContactPoint) :
  (forall c, check c c = true) ->
  match_expected check l (pre ++ l)
    (repeat true (length pre) ++ repeat false (length l)) true = true.
Proof.
  intros Hrefl. revert pre.
  induction l as [| e l IH]; intros pre; [reflexivity |].
  simpl match_expected. simpl length. simpl repeat.
  rewrite (find_actual_next _ pre e l (Hrefl e)).
  specialize (IH (pre ++ [e])).
  rewrite <- app_assoc, length_app, repeat_app, <- app_assoc in IH. exact IH.
Qed.

(** X27. A list of contacts passes the inspection against itself when the
    tolerance is positive; when depths are compared and the list is not
    empty, it passes only then. *)
Theorem inspectContactPoints_same
        (l : list ContactPoint) (p d n o : bool) (tol : R) :
  (0 < tol -> inspectContactPoints l l p d n o tol = true)%R /\
  (l <> [] -> inspectContactPoints l l p true n o tol = true -> 0 < tol)%R.
Proof.
  split.
  - intros Htol. unfold inspectContactPoints. rewrite Nat.eqb_refl. simpl negb. cbv iota.
    apply (match_expected_same
             (fun expected actual => checkContactPoints expected actual p d n o tol) [] l).
    intros c. apply checkContactPoints_refl. exact Htol.
  - intros Hl H. apply inspect_matching in H. destruct H as (_ & matched & _ & Hm).
    destruct Hm as [| e a es ms Hea _]; [congruence |].
    unfold checkContactPoints in Hea.
    destruct (p && negb (isApprox (pos a) (pos e) tol)); [discriminate |].
    simpl in Hea.
    destruct (Rltb (Rabs (penetration_depth a - penetration_depth e)) tol) eqn:Hd;
      [| discriminate].
    apply Rltb_spec in Hd.
    pose proof (Rabs_pos (penetration_depth a - penetration_depth e)). lra.
Qed.

Lemma greedy_misses (check : ContactPoint -> ContactPoint -> bool)
      (e1 e2 a1 a2 : ContactPoint) :
  check e1 a1 = true -> check e2 a2 = false ->
  match_expected check [e1; e2] [a1; a2] [false; false] true = false.
Proof. intros H11 H22. simpl. rewrite H11. simpl. rewrite H22. reflexivity. Qed.

Lemma greedy_finds (check : ContactPoint -> ContactPoint -> bool)
      (e1 e2 a1 a2 : ContactPoint) :
  check e1 a1 = true -> check e2 a2 = true ->
  match_expected check [e1; e2] [a1; a2] [false; false] true = true.
Proof. intros H11 H22. simpl. rewrite H11. simpl. rewrite H22. reflexivity. Qed.

(** X28. The matching is greedy, so the order of the actual contacts can decide
    the verdict: when the first expected contact accepts both actual
    contacts and the second accepts only one of them, the inspection fails
    if that one comes first and passes if it comes second. *)
Theorem inspectContactPoints_order_matters
        (e1 e2 a1 a2 : ContactPoint) (p d n o : bool) (tol : R) :
  checkContactPoints e1 a1 p d n o tol = true ->
  checkContactPoints e1 a2 p d n o tol = true ->
  checkContactPoints e2 a1 p d n o tol = true ->
  checkContactPoints e2 a2 p d n o tol = false ->
  inspectContactPoints [e1; e2] [a1; a2] p d n o tol = false /\
  inspectContactPoints [e1; e2] [a2; a1] p d n o tol = true.
Proof.
  intros H11 H12 H21 H22. unfold inspectContactPoints.
  split; [apply (greedy_misses _ e1 e2 a1 a2) | apply (greedy_finds _ e1 e2 a2 a1)];
    assumption.
Qed.

Lemma vopp_vopp (v : Vector3d R) : vopp (vopp v) = v.
Proof. destruct v as [x y z]. apply vec_ext; cbn; ring. Qed.

(** X29. With [check_normal] and [check_opposite_normal] set, an actual contact
    passes against an expected contact exactly when it passes against the
    expected contact with the normal reversed. *)
Theorem checkContactPoints_opposite_normal
        (expected actual : ContactPoint) (p d : bool) (tol : R) :
  checkContactPoints (flip_contact expected) actual p d true true tol =
  checkContactPoints expected actual p d true true tol.
Proof.
  unfold checkContactPoints, flip_contact. simpl.
  rewrite vopp_vopp.
  destruct (p && negb (isApprox (pos actual) (pos expected) tol)); [reflexivity |].
  destruct (d && negb (Rltb (Rabs (penetration_depth actual - penetration_depth expected))
                            tol)); [reflexivity |].
  destruct (isApprox (normal actual) (normal expected) tol),
           (isApprox (normal actual) (vopp (normal expected)) tol); reflexivity.
Qed.

(** X30. The two comparators that [testBoxBoxContactPoints] hands to
    [std::sort] are strict weak orderings, as [std::sort] requires: no
    element comes before itself, coming before is transitive, and so is
    being tied; and the second compares contacts as the first compares
    their positions. *)
Theorem compareContactPoints_strict_weak_order :
  (forall a, compareContactPoints1 a a = false) /\
  (forall a b c,
     compareContactPoints1 a b = true -> compareContactPoints1 b c = true ->
     compareContactPoints1 a c = true) /\
  (forall a b c,
     compareContactPoints1 a b = false -> compareContactPoints1 b a = false ->
     compareContactPoints1 b c = false -> compareContactPoints1 c b = false ->
     compareContactPoints1 a c = false /\ compareContactPoints1 c a = false) /\
  (forall cp1 cp2,
     compareContactPoints2 cp1 cp2 = compareContactPoints1 (pos cp1) (pos cp2)).
Proof.
  unfold compareContactPoints1, compareContactPoints2.
  split; [| split; [| split]].
  - intros a. apply Rltb_false. apply Rle_refl.
  - intros a b c Hab Hbc. apply Rltb_spec in Hab. apply Rltb_spec in Hbc.
    apply Rltb_true. exact (Rlt_trans _ _ _ Hab Hbc).
  - intros a b c Hab Hba Hbc Hcb.
    assert (Hge : forall x y : R, Rltb x y = false -> (y <= x)%R).
    { intros x y H. destruct (Rle_lt_dec y x) as [Hle | Hlt]; [exact Hle |].
      rewrite (Rltb_true Hlt) in H. discriminate. }
    apply Hge in Hab, Hba, Hbc, Hcb.
    split; apply Rltb_false.
    + exact (Rle_trans _ _ _ Hbc Hab).
    + exact (Rle_trans _ _ _ Hba Hcb).
  - reflexivity.
Qed.
End Matching.

(** ** The hash table and the matching on sample data *)

Section TableWitnesses.
Local Open Scope Z_scope.

Lemma Z_DataOrder : DataOrder Z.eqb Z.ltb.
Proof.
  constructor.
  - apply Z.eqb_eq.
  - apply Z.ltb_irrefl.
  - intros x y z H1 H2. apply Z.ltb_lt. apply Z.ltb_lt in H1. apply Z.ltb_lt in H2. lia.
  - intros x y H1 H2. apply Z.ltb_ge in H1. apply Z.ltb_ge in H2. lia.
Qed.

Example query_sample :
  SimpleHashTable.query Z.ltb SampleTable.h_ 1%N SampleTable.filled = Some [10; 20] /\
  SimpleHashTable.query Z.ltb SampleTable.h_ 2%N SampleTable.filled = Some [10; 20] /\
  SimpleHashTable.query Z.ltb SampleTable.h_ 0%N SampleTable.filled = Some [10; 20].
Proof. repeat split. Qed.

Example insert_sample :
  SimpleHashTable.insert SampleTable.h_ 2%N 5 SampleTable.filled =
  Some [[10; 5]; [10; 20]; [20; 5]].
Proof. reflexivity. Qed.

Example remove_sample :
  SimpleHashTable.remove Z.eqb SampleTable.h_ 1%N 20 SampleTable.filled =
  Some [[10]; [10]; []].
Proof. reflexivity. Qed.

Example init_sample :
  SimpleHashTable.init 2 SampleTable.filled = Returned [[10]; [10; 20]] /\
  SimpleHashTable.init 4 SampleTable.filled = Returned [[10]; [10; 20]; [20]; []].
Proof. split; reflexivity. Qed.

Lemma insert_appends_witness :
  SampleTable.filled <> [] /\
  exists t' : SimpleHashTable.table Z,
    SimpleHashTable.insert SampleTable.h_ 2%N 5 SampleTable.filled = Some t' /\
    SimpleHashTable.size t' = SimpleHashTable.size SampleTable.filled /\
    forall i : N,
      (i < SimpleHashTable.size SampleTable.filled)%N ->
      SimpleHashTable.bin t' i =
      SimpleHashTable.bin SampleTable.filled i ++
        repeat 5 (SimpleHashTable.hits SampleTable.h_
                    (SimpleHashTable.size SampleTable.filled) 2%N i).
Proof.
  split; [discriminate |].
  apply (insert_appends SampleTable.h_ 2%N 5 (t := SampleTable.filled)). discriminate.
Defined.

Lemma remove_purges_bins_witness :
  SampleTable.filled <> [] /\
  exists t' : SimpleHashTable.table Z,
    SimpleHashTable.remove Z.eqb SampleTable.h_ 1%N 20 SampleTable.filled = Some t' /\
    SimpleHashTable.size t' = SimpleHashTable.size SampleTable.filled /\
    forall i : N,
      (i < SimpleHashTable.size SampleTable.filled)%N ->
      SimpleHashTable.bin t' i =
      if (SimpleHashTable.hits SampleTable.h_
            (SimpleHashTable.size SampleTable.filled) 1%N i =? 0)%nat
      then SimpleHashTable.bin SampleTable.filled i
      else SimpleHashTable.list_remove Z.eqb 20 (SimpleHashTable.bin SampleTable.filled i).
Proof.
  split; [discriminate |].
  apply (remove_purges_bins Z.eqb SampleTable.h_ 1%N 20 (t := SampleTable.filled)).
  discriminate.
Defined.

Lemma query_collects_bins_witness :
  DataOrder Z.eqb Z.ltb /\
  SampleTable.filled <> [] /\
  exists result : list Z,
    SimpleHashTable.query Z.ltb SampleTable.h_ 1%N SampleTable.filled = Some result /\
    (forall x : Z,
       In x result <->
       exists i : N,
         In i (SimpleHashTable.bins_of SampleTable.h_
                 (SimpleHashTable.size SampleTable.filled) 1%N) /\
         In x (SimpleHashTable.bin SampleTable.filled i)) /\
    Sorted.StronglySorted (fun a b => Z.ltb a b = true) result /\
    NoDup result.
Proof.
  split; [exact Z_DataOrder |]. split; [discriminate |].
  apply (query_collects_bins SampleTable.h_ Z_DataOrder 1%N (t := SampleTable.filled)).
  discriminate.
Defined.

Lemma query_after_insert_witness :
  DataOrder Z.eqb Z.ltb /\
  SampleTable.filled <> [] /\
  exists (t' : SimpleHashTable.table Z) (before after : list Z),
    SimpleHashTable.insert SampleTable.h_ 2%N 5 SampleTable.filled = Some t' /\
    SimpleHashTable.query Z.ltb SampleTable.h_ 1%N SampleTable.filled = Some before /\
    SimpleHashTable.query Z.ltb SampleTable.h_ 1%N t' = Some after /\
    forall x : Z,
      In x after <->
      In x before \/
      (x = 5 /\
       exists i : N,
         In i (SimpleHashTable.bins_of SampleTable.h_
                 (SimpleHashTable.size SampleTable.filled) 2%N) /\
         In i (SimpleHashTable.bins_of SampleTable.h_
                 (SimpleHashTable.size SampleTable.filled) 1%N)).
Proof.
  split; [exact Z_DataOrder |]. split; [discriminate |].
  apply (query_after_insert SampleTable.h_ Z_DataOrder 2%N 1%N 5 (t := SampleTable.filled)).
  discriminate.
Defined.

Lemma query_after_remove_witness :
  DataOrder Z.eqb Z.ltb /\
  SampleTable.filled <> [] /\
  exists (t' : SimpleHashTable.table Z) (before after after' : list Z),
    SimpleHashTable.remove Z.eqb SampleTable.h_ 1%N 20 SampleTable.filled = Some t' /\
    SimpleHashTable.query Z.ltb SampleTable.h_ 1%N SampleTable.filled = Some before /\
    SimpleHashTable.query Z.ltb SampleTable.h_ 1%N t' = Some after /\
    SimpleHashTable.query Z.ltb SampleTable.h_ 0%N t' = Some after' /\
    (forall x : Z, In x after <-> In x before /\ x <> 20) /\
    (forall x : Z,
       In x after' <->
       exists i : N,
         In i (SimpleHashTable.bins_of SampleTable.h_
                 (SimpleHashTable.size SampleTable.filled) 0%N) /\
         In x (SimpleHashTable.bin SampleTable.filled i) /\
         (x = 20 -> ~ In i (SimpleHashTable.bins_of SampleTable.h_
                              (SimpleHashTable.size SampleTable.filled) 1%N))).
Proof.
  split; [exact Z_DataOrder |]. split; [discriminate |].
  apply (query_after_remove SampleTable.h_ Z_DataOrder 1%N 0%N 20 (t := SampleTable.filled)).
  discriminate.
Defined.

End TableWitnesses.

Section MatchingWitnesses.
Import Narrowphase GeometricShapesTest.
Local Open Scope R_scope.

Lemma depth_check (e a tol : R) :
  checkContactPoints (SampleContacts.at_depth e) (SampleContacts.at_depth a)
                     false true false false tol =
  Rltb (Rabs (a - e)) tol.
Proof.
  unfold checkContactPoints, SampleContacts.at_depth. simpl.
  destruct (Rltb (Rabs (a - e)) tol); reflexivity.
Qed.

Lemma inspectContactPoints_sound_witness :
  let c := SampleContacts.at_depth 1 in
  inspectContactPoints [c] [c] true true true false 1 = true /\
  length [c] = length [c] /\
  exists matched : list ContactPoint,
    Permutation.Permutation [c] matched /\
    Forall2 (fun e a => checkContactPoints e a true true true false 1 = true) [c] matched.
Proof.
  intros c.
  assert (H : inspectContactPoints [c] [c] true true true false 1 = true)
    by (apply inspectContactPoints_single; lra).
  split; [exact H |].
  exact (inspectContactPoints_sound [c] [c] true true true false 1 H).
Defined.

Lemma inspectContactPoints_order_matters_witness :
  let e1 := SampleContacts.at_depth 0 in
  let e2 := SampleContacts.at_depth 2 in
  let a1 := SampleContacts.at_depth 1 in
  let a2 := SampleContacts.at_depth (-1) in
  checkContactPoints e1 a1 false true false false 2 = true /\
  checkContactPoints e1 a2 false true false false 2 = true /\
  checkContactPoints e2 a1 false true false false 2 = true /\
  checkContactPoints e2 a2 false true false false 2 = false /\
  inspectContactPoints [e1; e2] [a1; a2] false true false false 2 = false /\
  inspectContactPoints [e1; e2] [a2; a1] false true false false 2 = true.
Proof.
  intros e1 e2 a1 a2.
  assert (H11 : checkContactPoints e1 a1 false true false false 2 = true).
  { subst e1 a1. rewrite depth_check. apply Rltb_true.
    unfold Rabs. destruct (Rcase_abs (1 - 0)); lra. }
  assert (H12 : checkContactPoints e1 a2 false true false false 2 = true).
  { subst e1 a2. rewrite depth_check. apply Rltb_true.
    unfold Rabs. destruct (Rcase_abs (-1 - 0)); lra. }
  assert (H21 : checkContactPoints e2 a1 false true false false 2 = true).
  { subst e2 a1. rewrite depth_check. apply Rltb_true.
    unfold Rabs. destruct (Rcase_abs (1 - 2)); lra. }
  assert (H22 : checkContactPoints e2 a2 false true false false 2 = false).
  { subst e2 a2. rewrite depth_check. apply Rltb_false.
    unfold Rabs. destruct (Rcase_abs (-1 - 2)); lra. }
  split; [exact H11 |]. split; [exact H12 |]. split; [exact H21 |]. split; [exact H22 |].
  exact (inspectContactPoints_order_matters e1 e2 a1 a2 false true false false 2
           H11 H12 H21 H22).
Defined.
End MatchingWitnesses.
